(** * delta/imagery/sources/basic_sources.py

    A shallow embedding of the region splitters, the image classes and the
    chunk filter of [basic_sources.py], with the Python semantics the code
    relies on written out: unbounded integers are [Z], a [float] is an IEEE
    754 binary64 number whose rounding is explicit, and a raised exception is
    a value of the [result] type. *)

From Stdlib Require Import ZArith List Bool Lia Floats QArith Qround Permutation.
From Stdlib Require String.
Import ListNotations.
Local Open Scope Z_scope.

(** ** Exceptions *)

Inductive exn : Type :=
| AssertionError
| ZeroDivisionError
| OverflowError
| ValueError
| TypeError
| IndexError
| NotImplementedError
| IOError.

Inductive result (A : Type) : Type :=
| Ok (a : A)
| Raise (e : exn).
Arguments Ok {A} a.
Arguments Raise {A} e.

Definition bind {A B} (c : result A) (k : A -> result B) : result B :=
  match c with
  | Ok a => k a
  | Raise e => Raise e
  end.

Notation "x <- c ;; k" := (bind c (fun x => k))
  (at level 61, c at next level, right associativity).

Definition succeeds {A} (c : result A) : bool :=
  match c with Ok _ => true | Raise _ => false end.

(** ** Python floats

    A Python [float] is an IEEE 754 binary64 number.  Every finite binary64
    number is an integer multiple of the least positive one, [2^-1074], so a
    finite float is kept as that integer: [Fin k] is the number
    [k * 2^-1074].  The multiples that are floats are those of the form
    [m * 2^s] with [|m| < 2^53] and [0 <= s], below [2^1024] in absolute
    value.  The sign of a zero is not kept: the two zeros compare equal in
    Python and have the same floor. *)

Module PyFloat.

Inductive t : Type :=
| Fin (k : Z)
| Inf (neg : bool)
| NaN.

(** [2^1074]: the number one, counted in units of [2^-1074]. *)
Definition U : Z := 2 ^ 1074.

(** [2^1024], in the same units: the first magnitude that overflows. *)
Definition huge : Z := 2 ^ 2098.

(** Nearest integer to [n / d], ties to even ([0 <= n], [0 < d]). *)
Definition rne (n d : Z) : Z :=
  let q := n / d in
  match 2 * (n mod d) ?= d with
  | Lt => q
  | Gt => q + 1
  | Eq => if Z.even q then q else q + 1
  end.

(** [floor (log2 (n / d))] for [0 < d <= n]. *)
Definition ilog2 (n d : Z) : Z :=
  let k := Z.log2 n - Z.log2 d in
  if d * 2 ^ k <=? n then k else k - 1.

(** The number of low bits a float near [n / d] units has to drop to keep
    53 significant bits ([0 <= n], [0 < d]). *)
Definition shift (n d : Z) : Z :=
  if d * 2 ^ 53 <=? n then ilog2 n d - 52 else 0.

(** The float nearest to [n / d] units, in units ([0 <= n], [0 < d]). *)
Definition round_units (n d : Z) : Z :=
  let s := shift n d in
  rne n (d * 2 ^ s) * 2 ^ s.

(** The binary64 nearest to the rational [n / d] ([0 < d]), ties to
    even; an infinity on overflow. *)
Definition round (n d : Z) : t :=
  let k := round_units (Z.abs n * U) d in
  if huge <=? k then Inf (n <? 0) else Fin (Z.sgn n * k).

Definition one : t := Fin U.

(** [float(z)]: "int too large to convert to float" on overflow. *)
Definition of_int (z : Z) : result t :=
  match round z 1 with
  | Inf _ => Raise OverflowError
  | f => Ok f
  end.

(** [a / b] on two ints: the correctly rounded quotient. *)
Definition int_truediv (a b : Z) : result t :=
  if b =? 0 then Raise ZeroDivisionError
  else match round (Z.sgn b * a) (Z.abs b) with
       | Inf _ => Raise OverflowError
       | f => Ok f
       end.

(** [x * y] on two floats. *)
Definition mul (x y : t) : t :=
  match x, y with
  | NaN, _ | _, NaN => NaN
  | Inf s, Inf s' => Inf (xorb s s')
  | Inf s, Fin k | Fin k, Inf s =>
      if k =? 0 then NaN else Inf (xorb s (k <? 0))
  | Fin a, Fin b => round (a * b) (U * U)
  end.

(** [x + y] on two floats. *)
Definition add (x y : t) : t :=
  match x, y with
  | NaN, _ | _, NaN => NaN
  | Inf s, Inf s' => if Bool.eqb s s' then Inf s else NaN
  | Inf s, Fin _ | Fin _, Inf s => Inf s
  | Fin a, Fin b => round (a + b) U
  end.

(** [x / y] on two floats: "float division by zero" when [y] is zero. *)
Definition div (x y : t) : result t :=
  match x, y with
  | _, Fin 0 => Raise ZeroDivisionError
  | NaN, _ | _, NaN => Ok NaN
  | Inf _, Inf _ => Ok NaN
  | Inf s, Fin b => Ok (Inf (xorb s (b <? 0)))
  | Fin _, Inf _ => Ok (Fin 0)
  | Fin a, Fin b => Ok (round (Z.sgn b * a) (Z.abs b))
  end.

(** [math.floor(x)] *)
Definition floor (x : t) : result Z :=
  match x with
  | Fin k => Ok (k / U)
  | Inf _ => Raise OverflowError
  | NaN => Raise ValueError
  end.

(** [x <= y] on two floats (false as soon as one is a NaN). *)
Definition leb (x y : t) : bool :=
  match x, y with
  | NaN, _ | _, NaN => false
  | Inf true, _ => true
  | _, Inf false => true
  | Inf false, _ => false
  | _, Inf true => false
  | Fin a, Fin b => a <=? b
  end.

(** The same number in the Standard Library's specification of IEEE 754
    arithmetic ([SpecFloat], mantissa and exponent), against which the
    operations above are tested below. *)
Definition to_spec (x : t) : spec_float :=
  match x with
  | Fin 0 => S754_zero false
  | Fin k =>
      let s := Z.max 0 (Z.log2 (Z.abs k) - 52) in
      match Z.abs k / 2 ^ s with
      | Zpos m => S754_finite (k <? 0) m (s - 1074)
      | _ => S754_nan
      end
  | Inf s => S754_infinity s
  | NaN => S754_nan
  end.

End PyFloat.

Arguments PyFloat.U : simpl never.
Arguments PyFloat.huge : simpl never.

(** Mixed arithmetic: the int operand is converted first. *)
Definition float_mul_int (x : PyFloat.t) (z : Z) : result PyFloat.t :=
  y <- PyFloat.of_int z ;; Ok (PyFloat.mul x y).

Definition int_mul_float (z : Z) (x : PyFloat.t) : result PyFloat.t :=
  y <- PyFloat.of_int z ;; Ok (PyFloat.mul y x).

Definition int_add_float (z : Z) (x : PyFloat.t) : result PyFloat.t :=
  y <- PyFloat.of_int z ;; Ok (PyFloat.add y x).

Definition float_div_int (x : PyFloat.t) (z : Z) : result PyFloat.t :=
  y <- PyFloat.of_int z ;; PyFloat.div x y.

(** ** Rectangles *)

(** Modelled from the spec: [rectangle.Rectangle] is not part of the source
    file; the spec gives it as the four coordinates
    (min_x, min_y, max_x, max_y). *)
Record Rectangle : Type := mkRectangle
  { min_x : Z; min_y : Z; max_x : Z; max_y : Z }.

(** ** Region splitters *)

Definition horizontal_split (image_size : Z * Z) (region num_splits : Z)
  : result Rectangle :=
  if negb (region <? num_splits) then Raise AssertionError else
  let min_x := 0 in
  let max_x := fst image_size in
  band_height <- PyFloat.int_truediv (snd image_size) num_splits ;;
  lo <- float_mul_int band_height region ;;
  min_y <- PyFloat.floor lo ;;
  next <- int_add_float region PyFloat.one ;;
  max_y <- PyFloat.floor (PyFloat.mul band_height next) ;;
  Ok (mkRectangle min_x min_y max_x max_y).

Definition tile_split (image_size : Z * Z) (region num_splits : Z)
  : result Rectangle :=
  let num_tiles := num_splits * num_splits in
  if negb (region <? num_tiles) then Raise AssertionError else
  q <- PyFloat.int_truediv region num_splits ;;
  tile_row <- PyFloat.floor q ;;
  let tile_col := region mod num_splits in
  qw <- PyFloat.int_truediv (fst image_size) num_splits ;;
  tile_width <- PyFloat.floor qw ;;
  qh <- PyFloat.int_truediv (snd image_size) num_splits ;;
  tile_height <- PyFloat.floor qh ;;
  let min_x := tile_width * tile_col in
  col1 <- int_add_float tile_col PyFloat.one ;;
  wx <- int_mul_float tile_width col1 ;;
  max_x <- PyFloat.floor wx ;;
  let min_y := tile_height * tile_row in
  row1 <- int_add_float tile_row PyFloat.one ;;
  hy <- int_mul_float tile_height row1 ;;
  max_y <- PyFloat.floor hy ;;
  Ok (mkRectangle min_x min_y max_x max_y).

(** ** Arrays of chunks *)

(** How [x.shape()] behaves on the array class in use: on a
    [numpy.ndarray] the attribute [shape] is a tuple and calling it raises
    [TypeError]; [ShapeMethod] stands for an array class that offers its
    dimensions through a method. *)
Inductive array_class : Type :=
| NumpyArray
| ShapeMethod.

Definition chunk2d : Type := list (list Z).

(** A batch of chunks, indexed [chunk, band, x, y], with its dimensions
    [(num_chunks, num_bands, width, height)]. *)
Record ndarray : Type := mkArray
  { arr_class : array_class;
    arr_dims : Z * Z * Z * Z;
    arr_chunks : list (list chunk2d) }.

Definition len {A} (l : list A) : Z := Z.of_nat (length l).

(** Every chunk has [b] bands of [w] rows of [h] pixels. *)
Definition wf_chunk (b w h : Z) (c : list chunk2d) : Prop :=
  len c = b /\
  Forall (fun band => len band = w /\ Forall (fun row => len row = h) band) c.

Definition wf_array (a : ndarray) : Prop :=
  let '(k, b, w, h) := arr_dims a in
  len (arr_chunks a) = k /\ Forall (wf_chunk b w h) (arr_chunks a).

(** [x.shape()] *)
Definition call_shape {A} (c : array_class) (dims : A) : result A :=
  match c with
  | NumpyArray => Raise TypeError
  | ShapeMethod => Ok dims
  end.

(** [l[i]] for [0 <= i]. *)
Definition index {A} (l : list A) (i : Z) : result A :=
  if i <? 0 then Raise IndexError
  else match nth_error l (Z.to_nat i) with
       | Some a => Ok a
       | None => Raise IndexError
       end.

(** [np.count_nonzero(chunk)] *)
Definition count_nonzero (c : chunk2d) : Z :=
  len (filter (fun p => negb (p =? 0)) (concat c)).

(** [range(a, b)] *)
Definition range (a b : Z) : list Z :=
  map (fun k => a + Z.of_nat k) (seq 0 (Z.to_nat (b - a))).

Fixpoint mapM {A B} (f : A -> result B) (l : list A) : result (list B) :=
  match l with
  | [] => Ok []
  | a :: l' => b <- f a ;; bs <- mapM f l' ;; Ok (b :: bs)
  end.

(** ** The chunk filter *)

(** The [(start_index, stop_index)] pairs handed to the workers. *)
Definition thread_splits (num_chunks num_threads : Z)
  : result (list (Z * Z)) :=
  fk <- PyFloat.of_int num_chunks ;;
  ft <- PyFloat.of_int num_threads ;;
  thread_size <- PyFloat.div fk ft ;;
  mapM (fun i =>
          a <- int_mul_float i thread_size ;;
          start_index <- PyFloat.floor a ;;
          b <- int_mul_float (i + 1) thread_size ;;
          stop_index <- PyFloat.floor b ;;
          Ok (start_index, stop_index))
       (range 0 num_threads).

(** One worker: the indices it flags, in the order it flags them. *)
Definition check_chunks (data : ndarray) (num_chunk_pixels : Z)
  (pair : Z * Z) : result (list Z) :=
  let (start_index, stop_index) := pair in
  flagged <- mapM (fun i =>
      bands <- index (arr_chunks data) i ;;
      chunk <- index bands 0 ;;
      _ <- call_shape (arr_class data) (len chunk) ;;
      Ok (if negb (count_nonzero chunk =? num_chunk_pixels)
          then [i] else []))
    (range start_index stop_index) ;;
  Ok (concat flagged).

(** [valid_chunks[i] = False] *)
Fixpoint clear_flag (flags : list bool) (i : nat) : list bool :=
  match flags, i with
  | [], _ => []
  | _ :: fs, O => false :: fs
  | f :: fs, S j => f :: clear_flag fs j
  end.

Definition apply_writes (flags : list bool) (writes : list Z) : list bool :=
  fold_left (fun fl i => clear_flag fl (Z.to_nat i)) writes flags.

(** The indices [i] of [range(0, num_chunks)] with [valid_chunks[i]]. *)
Definition valid_indices_of (num_chunks : Z) (flags : list bool) : list Z :=
  filter (fun i => nth (Z.to_nat i) flags false) (range 0 num_chunks).

(** [data[valid_indices, :, :, :]] *)
Definition take_chunks (data : ndarray) (ids : list Z) : result ndarray :=
  picked <- mapM (index (arr_chunks data)) ids ;;
  let '(_, b, w, h) := arr_dims data in
  Ok (mkArray (arr_class data) (len ids, b, w, h) picked).

(** The filter returns the selected batch; the second component is the
    figure of its closing [print], the number of remaining chunks.  The
    workers run one after the other here: [apply_writes_perm] below shows
    that the flags do not depend on the order of their writes. *)
Definition parallel_filter_chunks (data : ndarray) (num_threads : Z)
  : result (ndarray * Z) :=
  shape <- call_shape (arr_class data) (arr_dims data) ;;
  let '(num_chunks, _, width, height) := shape in
  let num_chunk_pixels := width * height in
  let valid_chunks := repeat true (Z.to_nat num_chunks) in
  splits <- thread_splits num_chunks num_threads ;;
  _ <- (if num_threads <? 1 then Raise ValueError else Ok tt) ;;
  writes <- mapM (check_chunks data num_chunk_pixels) splits ;;
  let valid_chunks := apply_writes valid_chunks (concat writes) in
  let valid_indices := valid_indices_of num_chunks valid_chunks in
  out <- take_chunks data valid_indices ;;
  Ok (out, len valid_indices).

(** ** Image handles *)

(** What lies outside the source file: the state of the backing resources.
    [clock] counts the accesses made so far, and each capability answers as
    a function of the access number, since a file may change between two
    accesses. *)
Record World : Type := mkWorld
  { clock : nat;
    (** [tfrecord_utils.get_record_info(path)]: (num_bands, width, height) *)
    get_record_info : String.string -> nat -> result (Z * Z * Z);
    (** [MultiTiffFileReader().load_images(paths)], then [num_bands()] and
        [image_size()] *)
    reader_load : list String.string -> nat -> result (Z * (Z * Z));
    (** [read_roi(roi)] of a loaded reader *)
    reader_read_roi : list String.string -> Rectangle -> nat -> result ndarray;
    (** [parallel_load_chunks(roi, chunk_size, chunk_overlap, 1)] *)
    reader_load_chunks :
      list String.string -> Rectangle -> Z -> Z -> nat -> result ndarray }.

Definition tick (w : World) : World :=
  mkWorld (S (clock w)) (get_record_info w) (reader_load w)
          (reader_read_roi w) (reader_load_chunks w).

(** A method of a handle of type [H]: it may update the handle, access the
    world, and return or raise. *)
Definition Method (H A : Type) : Type := H * World -> result A * (H * World).

Definition ret {H A} (a : A) : Method H A := fun s => (Ok a, s).

Definition throw {H A} (e : exn) : Method H A := fun s => (Raise e, s).

Definition mbind {H A B} (c : Method H A) (k : A -> Method H B)
  : Method H B :=
  fun s => match c s with
           | (Ok a, s') => k a s'
           | (Raise e, s') => (Raise e, s')
           end.

Definition lift {H A} (c : result A) : Method H A := fun s => (c, s).

Notation "x <~ c ;; k" := (mbind c (fun x => k))
  (at level 61, c at next level, right associativity).

(** A Python value that may be [None]. *)
Definition optional (A : Type) : Type := option A.

(** The abstract base class [DeltaImage]. *)
Class DeltaImage (H : Type) : Type :=
  { num_regions : H -> Z;
    chunk_image_region : Rectangle -> Z -> Z -> Method H (optional ndarray);
    read : optional Rectangle -> Method H ndarray;
    size : Method H (Z * Z);
    prep : Method H (optional (list String.string));
    get_num_bands : Method H Z }.

Fixpoint mapMM {H A B} (f : A -> Method H B) (l : list A)
  : Method H (list B) :=
  match l with
  | [] => ret []
  | a :: l' => b <~ f a ;; bs <~ mapMM f l' ;; ret (b :: bs)
  end.

(** [DeltaImage.tiles], consumed to its end: the ROIs the generator
    yields. *)
Definition tiles {H} `{DeltaImage H} : Method H (list Rectangle) :=
  s <~ size ;;
  fun st =>
    mapMM (fun i => lift (horizontal_split s i (num_regions (fst st))))
          (range 0 (num_regions (fst st))) st.

(** [DeltaImage.estimate_memory_usage]; [elem_size] is
    [sys.getsizeof(data_type(0))], a positive constant of the
    interpreter. *)
Definition estimate_memory_usage {H} `{DeltaImage H}
  (chunk_size chunk_overlap elem_size num_bands : Z) : Method H PyFloat.t :=
  num_bands <~ (if num_bands <? 1 then get_num_bands else ret num_bands) ;;
  full_size <~ size ;;
  fun st =>
    (height <~ lift (PyFloat.int_truediv (snd full_size)
                                         (num_regions (fst st))) ;;
     num_pixels <~ lift (float_mul_int height (fst full_size)) ;;
     let spacing := chunk_size - chunk_overlap in
     num_chunks <~ lift (float_div_int num_pixels (spacing * spacing)) ;;
     let chunk_area := chunk_size * chunk_size in
     a <~ lift (float_mul_int num_chunks chunk_area) ;;
     b <~ lift (float_mul_int a num_bands) ;;
     lift (float_mul_int b elem_size)) st.

(** *** TFRecordImage *)

Record TFRecordImage : Type := mkTFRecordImage
  { tfr_path : String.string;
    tfr_num_regions : Z;
    tfr_num_bands : optional Z;
    tfr_size : optional (Z * Z) }.

(** [TFRecordImage(path, _, num_regions)] *)
Definition TFRecordImage_init (path : String.string) (num_regions : Z)
  : TFRecordImage :=
  mkTFRecordImage path num_regions None None.

(** [__get_bands_size] *)
Definition tfr_get_bands_size : Method TFRecordImage unit :=
  fun '(self, w) =>
    match get_record_info w (tfr_path self) (clock w) with
    | Ok (num_bands, width, height) =>
        (Ok tt,
         (mkTFRecordImage (tfr_path self) (tfr_num_regions self)
                          (Some num_bands) (Some (width, height)),
          tick w))
    | Raise e => (Raise e, (self, tick w))
    end.

Definition tfr_get_num_bands : Method TFRecordImage Z :=
  fun st =>
    (_ <~ (match tfr_num_bands (fst st) with
           | None => tfr_get_bands_size
           | Some _ => ret tt
           end) ;;
     fun st' => match tfr_num_bands (fst st') with
                | Some b => (Ok b, st')
                | None => (Raise TypeError, st')
                end) st.

Definition tfr_size_method : Method TFRecordImage (Z * Z) :=
  fun st =>
    (_ <~ (match tfr_size (fst st) with
           | None => tfr_get_bands_size
           | Some _ => ret tt
           end) ;;
     fun st' => match tfr_size (fst st') with
                | Some s => (Ok s, st')
                | None => (Raise TypeError, st')
                end) st.

#[export] Instance TFRecordImage_DeltaImage : DeltaImage TFRecordImage :=
  { num_regions := tfr_num_regions;
    chunk_image_region := fun _ _ _ => ret None;
    read := fun _ => throw NotImplementedError;
    size := tfr_size_method;
    prep := ret None;
    get_num_bands := tfr_get_num_bands }.

(** *** TiffImage and SimpleTiff *)

Record SimpleTiff : Type := mkSimpleTiff
  { tif_path : String.string;
    tif_num_regions : Z }.

(** [SimpleTiff.prep] *)
Definition simple_prep : Method SimpleTiff (list String.string) :=
  fun st => (Ok [tif_path (fst st)], st).

(** Opening a [MultiTiffFileReader] on the prepared paths. *)
Definition open_reader (input_paths : list String.string)
  : Method SimpleTiff (Z * (Z * Z)) :=
  fun '(self, w) => (reader_load w input_paths (clock w), (self, tick w)).

(** [TiffImage.get_num_bands] *)
Definition tiff_get_num_bands : Method SimpleTiff Z :=
  input_paths <~ simple_prep ;;
  info <~ open_reader input_paths ;;
  ret (fst info).

(** [TiffImage.size] *)
Definition tiff_size : Method SimpleTiff (Z * Z) :=
  input_paths <~ simple_prep ;;
  info <~ open_reader input_paths ;;
  ret (snd info).

(** [TiffImage.chunk_image_region] *)
Definition tiff_chunk_image_region (roi : Rectangle)
  (chunk_size chunk_overlap : Z) : Method SimpleTiff (optional ndarray) :=
  input_paths <~ simple_prep ;;
  _ <~ open_reader input_paths ;;
  fun '(self, w) =>
    match reader_load_chunks w input_paths roi chunk_size chunk_overlap
                             (clock w) with
    | Ok a => (Ok (Some a), (self, w))
    | Raise e => (Raise e, (self, w))
    end.

(** [TiffImage.read] *)
Definition tiff_read (roi : optional Rectangle) : Method SimpleTiff ndarray :=
  input_paths <~ simple_prep ;;
  info <~ open_reader input_paths ;;
  let roi := match roi with
             | None => let s := snd info in mkRectangle 0 0 (fst s) (snd s)
             | Some r => r
             end in
  fun '(self, w) => (reader_read_roi w input_paths roi (clock w), (self, w)).

#[export] Instance SimpleTiff_DeltaImage : DeltaImage SimpleTiff :=
  { num_regions := tif_num_regions;
    chunk_image_region := tiff_chunk_image_region;
    read := tiff_read;
    size := tiff_size;
    prep := fun st => match simple_prep st with
                      | (Ok p, s) => (Ok (Some p), s)
                      | (Raise e, s) => (Raise e, s)
                      end;
    get_num_bands := tiff_get_num_bands }.

(** ** Definitions used in the statements *)

(** The multiples of [2^-1074] with at most 53 significant bits: the
    magnitudes of the floats, overflow apart. *)
Definition representable (K : Z) : Prop :=
  exists m t, 0 <= m < 2 ^ 53 /\ 0 <= t /\ K = m * 2 ^ t.

(** The rectangle of a horizontal band in exact arithmetic, as the
    specification words it: [H / N] is the rational quotient. *)
Definition horizontal_split_exact (image_size : Z * Z)
  (region num_splits : Z) : Rectangle :=
  let band_height := (inject_Z (snd image_size) / inject_Z num_splits)%Q in
  mkRectangle 0
    (Qfloor (band_height * inject_Z region)%Q)
    (fst image_size)
    (Qfloor (band_height * inject_Z (region + 1))%Q).

(** The rectangle of a grid tile as the specification words it. *)
Definition tile_split_exact (image_size : Z * Z)
  (region num_splits : Z) : Rectangle :=
  let tile_row := region / num_splits in
  let tile_col := region mod num_splits in
  let tile_width := fst image_size / num_splits in
  let tile_height := snd image_size / num_splits in
  mkRectangle (tile_width * tile_col) (tile_height * tile_row)
              (tile_width * (tile_col + 1)) (tile_height * (tile_row + 1)).

(** A computation that does not end on a failed [assert]. *)
Definition no_assert {A} (c : result A) : Prop := c <> Raise AssertionError.

(** The calls a client makes on a handle that resolve its size or band
    count, and what each of them answers. *)
Inductive call : Type :=
| CallSize
| CallNumBands
| CallTiles.

Inductive answer : Type :=
| ASize (r : result (Z * Z))
| ANumBands (r : result Z)
| ATiles (r : result (list Rectangle)).

Definition do_call {H} `{DeltaImage H} (c : call) (st : H * World)
  : answer * (H * World) :=
  match c with
  | CallSize => let (r, st') := size st in (ASize r, st')
  | CallNumBands => let (r, st') := get_num_bands st in (ANumBands r, st')
  | CallTiles => let (r, st') := tiles st in (ATiles r, st')
  end.

Fixpoint run_calls {H} `{DeltaImage H} (cs : list call) (st : H * World)
  : list answer * (H * World) :=
  match cs with
  | [] => ([], st)
  | c :: cs' =>
      let (a, st') := do_call c st in
      let (az, st'') := run_calls cs' st' in
      (a :: az, st'')
  end.

(** What a call answers from the cached size [s] and band count [b] of a
    handle cut in [n] regions. *)
Definition cached_answer (s : Z * Z) (b n : Z) (c : call) : answer :=
  match c with
  | CallSize => ASize (Ok s)
  | CallNumBands => ANumBands (Ok b)
  | CallTiles => ATiles (mapM (fun i => horizontal_split s i n) (range 0 n))
  end.

(** [__get_bands_size] sets the two cached fields together. *)
Definition tfr_consistent (self : TFRecordImage) : Prop :=
  tfr_size self = None <-> tfr_num_bands self = None.

(** The arithmetic of [estimate_memory_usage] once the size and the band
    count are known. *)
Definition estimate_arith (full_size : Z * Z)
  (num_regions chunk_size chunk_overlap elem_size num_bands : Z)
  : result PyFloat.t :=
  height <- PyFloat.int_truediv (snd full_size) num_regions ;;
  num_pixels <- float_mul_int height (fst full_size) ;;
  let spacing := chunk_size - chunk_overlap in
  num_chunks <- float_div_int num_pixels (spacing * spacing) ;;
  let chunk_area := chunk_size * chunk_size in
  a <- float_mul_int num_chunks chunk_area ;;
  b <- float_mul_int a num_bands ;;
  float_mul_int b elem_size.

(** A float that is zero, positive or plus infinity. *)
Definition nonneg_float (x : PyFloat.t) : Prop :=
  match x with
  | PyFloat.Fin k => 0 <= k
  | PyFloat.Inf neg => neg = false
  | PyFloat.NaN => False
  end.

(** A world whose record metadata and TIFF reader give an image that is
    one pixel wider at every access. *)
Definition growing_world : World :=
  mkWorld 0
    (fun _ k => Ok (3, 10 + Z.of_nat k, 20))
    (fun _ k => Ok (3, (10 + Z.of_nat k, 20)))
    (fun _ _ _ => Raise IOError)
    (fun _ _ _ _ _ => Raise IOError).




(** What the filter tests on a chunk: its first band has no zero pixel. *)
Definition band_has_no_zero (band : chunk2d) : bool :=
  forallb (fun p => negb (p =? 0)) (concat band).

Definition chunk_valid (c : list chunk2d) : bool :=
  match c with
  | band :: _ => band_has_no_zero band
  | [] => true
  end.


(** The stop index of the last worker. *)
Definition last_stop (splits : list (Z * Z)) : Z := snd (last splits (0, 0)).

(** A batch of [k] chunks of one band of one pixel, with the given pixel
    values. *)
Definition pixel_batch (pixels : list Z) : ndarray :=
  mkArray ShapeMethod (len pixels, 1, 1, 1)
          (map (fun p => [[[p]]]) pixels).


(** The stop index of the last of [num_threads] workers on [num_chunks]
    chunks. *)
Definition fmap_last_stop (num_chunks num_threads : Z) : result Z :=
  splits <- thread_splits num_chunks num_threads ;; Ok (last_stop splits).

(** *** Comparison with the Standard Library's IEEE 754 specification *)

(** [float(z)] in [SpecFloat], binary64 being [prec = 53], [emax = 1024]. *)
Definition spec_of_int (z : Z) : spec_float :=
  binary_normalize 53 1024 z 0 false.

(** Whether the quotient, the product and the sum of [float(a)] and
    [float(b)] are the same numbers here and in [SpecFloat]. *)
Definition agrees_with_spec (a b : Z) : bool :=
  match PyFloat.of_int a, PyFloat.of_int b with
  | Ok x, Ok y =>
      let sx := spec_of_int a in
      let sy := spec_of_int b in
      SFeqb (PyFloat.to_spec x) sx && SFeqb (PyFloat.to_spec y) sy &&
      match PyFloat.div x y with
      | Ok q => SFeqb (PyFloat.to_spec q) (SFdiv 53 1024 sx sy)
      | Raise _ => false
      end &&
      SFeqb (PyFloat.to_spec (PyFloat.mul x y)) (SFmul 53 1024 sx sy) &&
      SFeqb (PyFloat.to_spec (PyFloat.add x y)) (SFadd 53 1024 sx sy)
  | _, _ => false
  end.

(** *** Regions and pixels *)

(** The pixel [(x, y)] lies in the region [r]; [max_x] and [max_y] are
    exclusive, a band starting on the row where the band before it stops. *)
Definition covers (r : Rectangle) (x y : Z) : Prop :=
  min_x r <= x < max_x r /\ min_y r <= y < max_y r.

(** A world whose first access fails and whose later accesses answer a
    3-band image of 10 by 20 pixels. *)
Definition flaky_world : World :=
  mkWorld 0
    (fun _ k => match k with
                | O => Raise IOError
                | S _ => Ok (3, 10, 20)
                end)
    (fun _ k => match k with
                | O => Raise IOError
                | S _ => Ok (3, (10, 20))
                end)
    (fun _ _ _ => Raise IOError)
    (fun _ _ _ _ _ => Raise IOError).

(** What a call answers when the backing resource raises [e]. *)
Definition failed_answer (e : exn) (c : call) : answer :=
  match c with
  | CallSize => ASize (Raise e)
  | CallNumBands => ANumBands (Raise e)
  | CallTiles => ATiles (Raise e)
  end.

(** * Properties *)

(** ** Rounding to binary64 *)

Module PyFloatFacts.
Import PyFloat.

Lemma Ok_inj {A} (a b : A) : Ok a = Ok b -> a = b.
Proof. intros E. injection E as E. exact E. Qed.

Lemma rne_bounds n d :
    0 < d -> 2 * n - d <= 2 * d * rne n d <= 2 * n + d.
Proof.
    intros Hd. unfold rne.
    pose proof (Z.div_mod n d ltac:(lia)) as E.
    pose proof (Z.mod_pos_bound n d Hd) as B.
    destruct (Z.compare_spec (2 * (n mod d)) d); [destruct (Z.even (n / d))| |]; nia.
Qed.

Lemma rne_exact k d : 0 < d -> rne (k * d) d = k.
Proof.
    intros Hd. unfold rne.
    rewrite Z.div_mul, Z.mod_mul by lia.
    replace (2 * 0) with 0 by lia.
    destruct (Z.compare_spec 0 d); lia.
Qed.

Lemma div_cross_le n d n' d' :
    0 < d -> 0 < d' -> n * d' <= n' * d -> n / d <= n' / d'.
Proof.
    intros Hd Hd' H.
    pose proof (Z.div_mod n d ltac:(lia)) as E.
    pose proof (Z.mod_pos_bound n d Hd) as B.
    pose proof (Z.div_mod n' d' ltac:(lia)) as E'.
    pose proof (Z.mod_pos_bound n' d' Hd') as B'.
    apply Z.div_le_lower_bound; [lia|].
    (* d' * (n/d) <= n' *)
    assert (d * (d' * (n / d)) <= d * n') by nia.
    nia.
Qed.

Lemma rne_mono n d n' d' :
    0 < d -> 0 < d' -> n * d' <= n' * d -> rne n d <= rne n' d'.
Proof.
    intros Hd Hd' H.
    pose proof (div_cross_le n d n' d' Hd Hd' H) as Q.
    unfold rne.
    pose proof (Z.div_mod n d ltac:(lia)) as E.
    pose proof (Z.mod_pos_bound n d Hd) as B.
    pose proof (Z.div_mod n' d' ltac:(lia)) as E'.
    pose proof (Z.mod_pos_bound n' d' Hd') as B'.
    assert (C : n / d < n' / d' \/ n / d = n' / d') by lia.
    destruct C as [C|C].
    - destruct (Z.compare_spec (2 * (n mod d)) d);
        destruct (Z.compare_spec (2 * (n' mod d')) d');
        try destruct (Z.even (n / d)); try destruct (Z.even (n' / d')); lia.
    - rewrite <- C in *.
      assert (R : (n mod d) * d' <= (n' mod d') * d) by nia.
      destruct (Z.compare_spec (2 * (n mod d)) d);
        destruct (Z.compare_spec (2 * (n' mod d')) d');
        try destruct (Z.even (n / d)); try lia; nia.
Qed.
Lemma pow2_pos k : 0 < 2 ^ k \/ k < 0.
Proof. destruct (Z.le_gt_cases 0 k); [left; apply Z.pow_pos_nonneg; lia | right; lia]. Qed.

Lemma pow2_gt0 k : 0 <= k -> 0 < 2 ^ k.
Proof. intros; apply Z.pow_pos_nonneg; lia. Qed.

Lemma pow2_succ k : 0 <= k -> 2 ^ (k + 1) = 2 * 2 ^ k.
Proof. intros; rewrite Z.pow_add_r by lia; lia. Qed.

Lemma ilog2_spec n d :
    0 < d -> d <= n ->
    0 <= ilog2 n d /\ d * 2 ^ ilog2 n d <= n < d * 2 ^ (ilog2 n d + 1).
Proof.
    intros Hd Hn. unfold ilog2.
    pose proof (Z.log2_spec n ltac:(lia)) as [Ln1 Ln2].
    pose proof (Z.log2_spec d ltac:(lia)) as [Ld1 Ld2].
    pose proof (Z.log2_nonneg d) as Ld0.
    pose proof (Z.log2_le_mono d n ltac:(lia)) as Lm.
    set (ln := Z.log2 n) in *. set (ld := Z.log2 d) in *.
    set (k := ln - ld).
    assert (Hk : 0 <= k) by (unfold k; lia).
    assert (Eln : 2 ^ ln = 2 ^ ld * 2 ^ k)
      by (rewrite <- Z.pow_add_r by lia; f_equal; unfold k; lia).
    assert (Eln1 : 2 ^ Z.succ ln = 2 * 2 ^ ln) by (rewrite Z.pow_succ_r; lia).
    assert (Eld1 : 2 ^ Z.succ ld = 2 * 2 ^ ld) by (rewrite Z.pow_succ_r; lia).
    pose proof (pow2_gt0 k Hk) as Pk.
    pose proof (pow2_gt0 ld Ld0) as Pld.
    destruct (Z.leb_spec (d * 2 ^ k) n) as [C|C].
    - split; [lia|]. split; [lia|].
      rewrite pow2_succ by lia. nia.
    - assert (k <> 0) by (intros E0; rewrite E0 in C; simpl in C; lia).
      assert (Ek : 2 ^ k = 2 * 2 ^ (k - 1)).
      { replace k with ((k - 1) + 1) at 1 by lia. apply pow2_succ; lia. }
      replace (k - 1 + 1) with k by lia.
      split; [lia|]. split; [|lia]. nia.
Qed.

Lemma shift_spec n d :
    0 < d ->
    let s := shift n d in
    (s = 0 /\ n < d * 2 ^ 53) \/
    (1 <= s /\ d * 2 ^ (s + 52) <= n < d * 2 ^ (s + 53)).
Proof.
    intros Hd. unfold shift.
    destruct (Z.leb_spec (d * 2 ^ 53) n) as [C|C]; [right | left; lia].
    assert (Hn : d <= n).
    { assert (1 <= 2 ^ 53) by (pose proof (pow2_gt0 53); lia). nia. }
    destruct (ilog2_spec n d Hd Hn) as (J0 & J1 & J2).
    set (j := ilog2 n d) in *.
    assert (53 <= j).
    { destruct (Z.lt_ge_cases j 53) as [L|L]; [|lia]. exfalso.
      assert (2 ^ (j + 1) <= 2 ^ 53) by (apply Z.pow_le_mono_r; lia). nia. }
    replace (j - 52 + 52) with j by lia.
    replace (j - 52 + 53) with (j + 1) by lia. lia.
Qed.

Lemma pow2_lt_inv a b : 0 <= b -> 2 ^ a < 2 ^ b -> a < b.
Proof.
    intros Hb H. destruct (Z.lt_ge_cases a b) as [L|L]; [lia|].
    assert (2 ^ b <= 2 ^ a) by (apply Z.pow_le_mono_r; lia). lia.
Qed.

Lemma pow2_split a b : 0 <= a -> 0 <= b -> 2 ^ (a + b) = 2 ^ a * 2 ^ b.
Proof. intros; apply Z.pow_add_r; lia. Qed.

Lemma round_units_err n d :
    0 < d ->
    2 * n - d * 2 ^ shift n d <= 2 * d * round_units n d
    <= 2 * n + d * 2 ^ shift n d.
Proof.
    intros Hd. unfold round_units.
    set (s := shift n d).
    assert (Hs : 0 <= s) by (destruct (shift_spec n d Hd); fold s in H; lia).
    pose proof (pow2_gt0 s Hs) as P.
    pose proof (rne_bounds n (d * 2 ^ s) ltac:(nia)). nia.
Qed.

Lemma round_units_range n d :
    0 <= n -> 0 < d ->
    let s := shift n d in
    (if s =? 0 then 0 else 2 ^ 52 * 2 ^ s) <= round_units n d <= 2 ^ 53 * 2 ^ s.
Proof.
    intros Hn Hd s. unfold round_units. fold s.
    assert (P53 : 2 ^ 53 = 2 * 2 ^ 52) by reflexivity.
    assert (P52 : 0 < 2 ^ 52) by reflexivity.
    destruct (shift_spec n d Hd) as [[E B]|[L [B1 B2]]]; fold s in E, B || fold s in L, B1, B2.
    - rewrite E. simpl (2 ^ 0). rewrite !Z.mul_1_r.
      pose proof (rne_bounds n d Hd).
      split; [simpl; nia | nia].
    - assert (Hs : 0 <= s) by lia.
      pose proof (pow2_gt0 s Hs) as P.
      rewrite (Z.add_comm s 52), pow2_split in B1 by lia.
      rewrite (Z.add_comm s 53), pow2_split in B2 by lia.
      pose proof (rne_bounds n (d * 2 ^ s) ltac:(nia)) as R.
      destruct (Z.eqb_spec s 0); [lia|].
      set (r := rne n (d * 2 ^ s)) in *.
      set (D := d * 2 ^ s) in *.
      assert (0 < D) by (unfold D; nia).
      assert (D * 2 ^ 52 <= n) by (unfold D; nia).
      assert (n < D * 2 ^ 53) by (unfold D; nia).
      assert (2 ^ 52 <= r) by nia.
      assert (r <= 2 ^ 53) by nia.
      split; nia.
Qed.

Lemma round_units_exact n d K :
    0 < d -> n = K * d -> representable K -> round_units n d = K.
Proof.
    intros Hd En (m & t & Hm & Ht & EK). unfold round_units.
    pose proof (pow2_gt0 t Ht) as Pt.
    destruct (shift_spec n d Hd) as [[E B]|[L [B1 B2]]].
    - rewrite E. simpl (2 ^ 0). rewrite !Z.mul_1_r. subst n. apply rne_exact; lia.
    - set (s := shift n d) in *.
      assert (Hs : 0 <= s) by lia.
      pose proof (pow2_gt0 s Hs) as P.
      assert (s <= t).
      { assert (2 ^ (s + 52) < 2 ^ (53 + t)).
        { rewrite (pow2_split 53 t) by lia.
          subst n K.
          assert (m * 2 ^ t * d <= (2 ^ 53 - 1) * 2 ^ t * d)
            by (apply Z.mul_le_mono_nonneg_r; [lia|];
                apply Z.mul_le_mono_nonneg_r; lia).
          assert (d * 2 ^ (s + 52) <= d * ((2 ^ 53 - 1) * 2 ^ t)) by lia.
          apply Z.mul_le_mono_pos_l in H0; lia. }
        apply pow2_lt_inv in H; lia. }
      assert (Et : 2 ^ t = 2 ^ (t - s) * 2 ^ s).
      { rewrite <- pow2_split by lia. f_equal; lia. }
      replace n with ((m * 2 ^ (t - s)) * (d * 2 ^ s)) by (subst n K; rewrite Et; ring).
      rewrite rne_exact by (apply Z.mul_pos_pos; lia). subst K. rewrite Et. ring.
Qed.

Lemma shift_mono n d n' d' :
    0 < d -> 0 < d' -> n * d' <= n' * d -> shift n d <= shift n' d'.
Proof.
    intros Hd Hd' H.
    destruct (shift_spec n d Hd) as [[E B]|[L [B1 B2]]];
      destruct (shift_spec n' d' Hd') as [[E' B']|[L' [B1' B2']]]; try lia.
    - exfalso.
      assert (2 ^ 53 <= 2 ^ (shift n d + 52)) by (apply Z.pow_le_mono_r; lia).
      assert (d * d' * 2 ^ 53 <= n * d') by nia.
      assert (n' * d < d * d' * 2 ^ 53) by nia.
      lia.
    - assert (2 ^ (shift n d + 52) < 2 ^ (shift n' d' + 53)).
      { assert (d * d' * 2 ^ (shift n d + 52) <= n * d') by nia.
        assert (n' * d < d * d' * 2 ^ (shift n' d' + 53)) by nia.
        assert (0 < d * d') by nia.
        nia. }
      apply pow2_lt_inv in H0; lia.
Qed.

Lemma round_units_mono n d n' d' :
    0 <= n -> 0 < d -> 0 < d' -> n * d' <= n' * d ->
    round_units n d <= round_units n' d'.
Proof.
    intros Hn Hd Hd' H.
    assert (Hn' : 0 <= n') by nia.
    pose proof (shift_mono n d n' d' Hd Hd' H) as S.
    pose proof (round_units_range n d Hn Hd) as R. cbv zeta in R.
    pose proof (round_units_range n' d' Hn' Hd') as R'. cbv zeta in R'.
    assert (S0 : 0 <= shift n d) by (destruct (shift_spec n d Hd); lia).
    assert (C : shift n d = shift n' d' \/ shift n d + 1 <= shift n' d') by lia.
    destruct C as [C|C].
    - unfold round_units. rewrite <- C.
      pose proof (pow2_gt0 _ S0) as P.
      apply Z.mul_le_mono_nonneg_r; [lia|].
      apply rne_mono; nia.
    - destruct (Z.eqb_spec (shift n' d') 0); [lia|].
      assert (2 ^ (shift n d + 1) <= 2 ^ shift n' d') by (apply Z.pow_le_mono_r; lia).
      rewrite pow2_succ in H0 by lia.
      assert (P53 : 2 ^ 53 = 2 * 2 ^ 52) by reflexivity.
      nia.
Qed.

Lemma U_eq : U = 2 ^ 1074.
Proof. reflexivity. Qed.

Lemma U_pos : 0 < U.
Proof. reflexivity. Qed.

Lemma huge_eq : huge = 2 ^ 1024 * U.
Proof. reflexivity. Qed.

Lemma rep_int q : 0 <= q <= 2 ^ 53 -> representable (q * U).
Proof.
  intros Hq. destruct (Z.eq_dec q (2 ^ 53)) as [E|E].
  - exists (2 ^ 52), 1075. subst q. repeat split; try lia; reflexivity.
  - exists q, 1074. rewrite U_eq. repeat split; lia.
Qed.

(** A quotient that is an integer of at most 53 bits is not rounded. *)
Lemma round_exact n d q :
  0 < d -> n = q * d -> Z.abs q <= 2 ^ 53 -> round n d = Fin (q * U).
Proof.
  intros Hd En Hq. unfold round.
  assert (E : round_units (Z.abs n * U) d = Z.abs q * U).
  { apply round_units_exact; [lia | | apply rep_int; lia].
    subst n. rewrite Z.abs_mul, (Z.abs_eq d) by lia. ring. }
  rewrite E. pose proof U_pos as HU.
  destruct (Z.leb_spec huge (Z.abs q * U)) as [C|C].
  - exfalso. rewrite huge_eq in C.
    assert (2 ^ 53 < 2 ^ 1024) by reflexivity.
    assert (Z.abs q * U <= 2 ^ 53 * U) by (apply Z.mul_le_mono_nonneg_r; lia).
    assert (2 ^ 53 * U < 2 ^ 1024 * U) by (apply Z.mul_lt_mono_pos_r; lia).
    lia.
  - f_equal. subst n. rewrite Z.sgn_mul, (Z.sgn_pos d), Z.mul_1_r by lia.
    destruct (Z.sgn_spec q) as [[? ->]|[[? ->]|[? ->]]]; subst;
      try rewrite Z.abs_eq by lia; try rewrite Z.abs_neq by lia; ring.
Qed.

Lemma of_int_exact z : Z.abs z <= 2 ^ 53 -> of_int z = Ok (Fin (z * U)).
Proof.
  intros Hz. unfold of_int.
  rewrite (round_exact z 1 z); [reflexivity | lia | ring | exact Hz].
Qed.

Lemma mul_exact a b :
  Z.abs (a * b) <= 2 ^ 53 -> mul (Fin (a * U)) (Fin (b * U)) = Fin (a * b * U).
Proof.
  intros H. unfold mul. pose proof U_pos.
  apply round_exact; [nia | ring | exact H].
Qed.

Lemma add_exact a b :
  Z.abs (a + b) <= 2 ^ 53 -> add (Fin (a * U)) (Fin (b * U)) = Fin ((a + b) * U).
Proof.
  intros H. unfold add. pose proof U_pos.
  apply round_exact; [lia | ring | exact H].
Qed.

Lemma floor_exact z : floor (Fin (z * U)) = Ok z.
Proof. unfold floor. pose proof U_pos. rewrite Z.div_mul by lia. reflexivity. Qed.

Lemma int_truediv_exact a b q :
  0 < b -> a = q * b -> Z.abs q <= 2 ^ 53 -> int_truediv a b = Ok (Fin (q * U)).
Proof.
  intros Hb Ea Hq. unfold int_truediv.
  destruct (Z.eqb_spec b 0); [lia|].
  rewrite Z.sgn_pos, Z.mul_1_l, Z.abs_eq by lia.
  rewrite (round_exact a b q) by assumption. reflexivity.
Qed.

Lemma round_units_0 d : 0 < d -> round_units 0 d = 0.
Proof.
  intros Hd. apply round_units_exact; [lia | ring |].
  exists 0, 0. repeat split; lia.
Qed.

(** The rounding of a non-negative quotient. *)
Lemma round_nonneg n d :
  0 <= n -> 0 < d ->
  round n d = let k := round_units (n * U) d in
              if huge <=? k then Inf false else Fin k.
Proof.
  intros Hn Hd. unfold round. rewrite Z.abs_eq by lia. cbv zeta.
  destruct (Z.leb_spec huge (round_units (n * U) d)).
  - f_equal. apply Z.ltb_ge. lia.
  - f_equal. destruct (Z.eq_dec n 0) as [->|].
    + rewrite Z.mul_0_l, round_units_0 by lia. reflexivity.
    + rewrite Z.sgn_pos by lia. lia.
Qed.

(** Rounding is monotone. *)
Lemma round_mono n d n' d' :
  0 <= n -> 0 < d -> 0 < d' -> n * d' <= n' * d ->
  leb (round n d) (round n' d') = true.
Proof.
  intros Hn Hd Hd' H.
  assert (Hn' : 0 <= n') by nia.
  rewrite (round_nonneg n d), (round_nonneg n' d') by assumption. cbv zeta.
  pose proof U_pos as HU.
  assert (M : round_units (n * U) d <= round_units (n' * U) d').
  { apply round_units_mono; try lia; nia. }
  destruct (Z.leb_spec huge (round_units (n * U) d));
    destruct (Z.leb_spec huge (round_units (n' * U) d')); simpl; try reflexivity.
  - lia.
  - apply Z.leb_le. exact M.
Qed.

(** The floor of the rounded quotient of two ints is their integer
    quotient, as long as the dividend has at most 53 bits. *)
Lemma int_truediv_floor a b :
  0 <= a < 2 ^ 53 -> 0 < b ->
  exists k, int_truediv a b = Ok (Fin k) /\
            a / b * U <= k < (a / b + 1) * U.
Proof.
  intros Ha Hb. unfold int_truediv.
  destruct (Z.eqb_spec b 0); [lia|].
  rewrite Z.sgn_pos, Z.mul_1_l, Z.abs_eq by lia.
  rewrite round_nonneg by lia. cbv zeta.
  pose proof U_pos as HU.
  pose proof (Z.div_mod a b ltac:(lia)) as E.
  pose proof (Z.mod_pos_bound a b Hb) as B.
  set (q := a / b) in *. set (r := a mod b) in *.
  assert (Hq : 0 <= q) by (apply Z.div_pos; lia).
  assert (Hqa : q <= a) by nia.
  set (k := round_units (a * U) b).
  assert (Lo : q * U <= k).
  { rewrite <- (round_units_exact (q * U * b) b (q * U)); [| lia | ring | apply rep_int; lia].
    apply round_units_mono; [nia | lia | lia |].
    apply Z.mul_le_mono_nonneg_r; [lia|].
    replace (q * U * b) with (b * q * U) by ring.
    apply Z.mul_le_mono_nonneg_r; lia. }
  assert (Hi : k < (q + 1) * U).
  { pose proof (round_units_err (a * U) b Hb) as [_ Er]. fold k in Er.
    assert (U53 : 2 ^ 54 <= U) by (rewrite U_eq; apply Z.pow_le_mono_r; lia).
    assert (P54 : 2 ^ 54 = 2 * 2 ^ 53) by reflexivity.
    assert (Rho : 1 <= (q + 1) * b - a) by lia.
    assert (G : b * 2 ^ shift (a * U) b < 2 * ((q + 1) * b - a) * U).
    { destruct (shift_spec (a * U) b Hb) as [[S0 Bd]|[S1 [B1 B2]]].
      - rewrite S0. simpl (2 ^ 0). rewrite Z.mul_1_r.
        destruct (Z.lt_ge_cases b (2 * U)) as [C|C]; [nia|].
        assert (q = 0) by (apply Z.div_small; lia). subst q.
        assert (r = a) by lia.
        assert (2 * a < b) by lia.
        nia.
      - set (s := shift (a * U) b) in *.
        assert (P : 0 < 2 ^ s) by (apply pow2_gt0; lia).
        rewrite (Z.add_comm s 52), pow2_split in B1 by lia.
        assert (a * U < 2 ^ 53 * U) by (apply Z.mul_lt_mono_pos_r; lia).
        assert (P53 : 2 ^ 53 = 2 * 2 ^ 52) by reflexivity.
        assert (b * 2 ^ s < 2 * U) by nia.
        nia. }
    assert (2 * b * k < 2 * b * ((q + 1) * U)) by nia.
    apply Z.mul_lt_mono_pos_l in H; lia. }
  assert (Fi : k < huge).
  { rewrite huge_eq.
    assert ((q + 1) * U <= 2 ^ 53 * U) by (apply Z.mul_le_mono_nonneg_r; lia).
    assert (2 ^ 53 * U < 2 ^ 1024 * U) by (apply Z.mul_lt_mono_pos_r; [lia|reflexivity]).
    lia. }
  destruct (Z.leb_spec huge k); [lia|].
  exists k. split; [reflexivity | lia].
Qed.

Lemma int_truediv_floor_eq a b :
  0 <= a < 2 ^ 53 -> 0 < b ->
  (q <- int_truediv a b ;; floor q) = Ok (a / b).
Proof.
  intros Ha Hb. destruct (int_truediv_floor a b Ha Hb) as (k & -> & B1 & B2).
  unfold bind, floor. f_equal. pose proof U_pos.
  symmetry. apply Z.div_unique with (r := k - a / b * U); lia.
Qed.

(** The relative error of a rounding is at most [2^-53], away from the
    subnormal numbers. *)
Lemma round_units_rel n d :
  0 < d -> d * 2 ^ 52 <= n ->
  (2 ^ 53 - 1) * n <= 2 ^ 53 * (d * round_units n d) <= (2 ^ 53 + 1) * n.
Proof.
  intros Hd Hn.
  pose proof (round_units_err n d Hd) as [E1 E2].
  assert (P53 : 2 ^ 53 = 2 * 2 ^ 52) by reflexivity.
  assert (P52 : 0 < 2 ^ 52) by reflexivity.
  assert (S : 2 ^ 52 * (d * 2 ^ shift n d) <= n).
  { destruct (shift_spec n d Hd) as [[S0 _]|[S1 [B1 _]]].
    - rewrite S0. simpl (2 ^ 0). lia.
    - rewrite (Z.add_comm _ 52), pow2_split in B1 by lia. lia. }
  set (k := round_units n d) in *. set (w := d * 2 ^ shift n d) in *.
  rewrite P53. set (c := 2 ^ 52) in *. nia.
Qed.

(** *** Finite results *)

Lemma round_units_nonneg n d : 0 <= n -> 0 < d -> 0 <= round_units n d.
Proof.
  intros Hn Hd. pose proof (round_units_range n d Hn Hd) as R. cbv zeta in R.
  destruct (shift n d =? 0); [lia|].
  assert (0 <= shift n d) by (destruct (shift_spec n d Hd); lia).
  pose proof (pow2_gt0 (shift n d) H).
  assert (0 < 2 ^ 52) by reflexivity. nia.
Qed.

Lemma round_nonneg_cases n d :
  0 <= n -> 0 < d ->
  (round n d = Inf false /\ huge <= round_units (n * U) d) \/
  (round n d = Fin (round_units (n * U) d) /\
   0 <= round_units (n * U) d < huge).
Proof.
  intros Hn Hd. rewrite round_nonneg by assumption. cbv zeta.
  pose proof U_pos.
  pose proof (round_units_nonneg (n * U) d ltac:(nia) Hd).
  destruct (Z.leb_spec huge (round_units (n * U) d)); [left | right];
    split; try reflexivity; lia.
Qed.

Lemma round_is_nonneg n d : 0 <= n -> 0 < d -> nonneg_float (round n d).
Proof.
  intros Hn Hd.
  destruct (round_nonneg_cases n d Hn Hd) as [[-> _]|[-> B]]; simpl;
    [reflexivity | lia].
Qed.

(** A quotient below [2^1023] in absolute value does not overflow. *)
Lemma round_finite n d :
  0 < d -> Z.abs n <= 2 ^ 1023 * d -> exists k, round n d = Fin k.
Proof.
  intros Hd Hn. unfold round. pose proof U_pos as HU.
  assert (M : round_units (Z.abs n * U) d <= 2 ^ 1023 * U).
  { rewrite <- (round_units_exact (2 ^ 1023 * U * d) d (2 ^ 1023 * U));
      [| lia | ring |].
    - apply round_units_mono; [nia | lia | lia |].
      apply Z.mul_le_mono_nonneg_r; [lia|].
      replace (2 ^ 1023 * U * d) with (2 ^ 1023 * d * U) by ring.
      apply Z.mul_le_mono_nonneg_r; lia.
    - exists (2 ^ 52), (971 + 1074). rewrite U_eq.
      repeat split; try lia; reflexivity. }
  assert (2 ^ 1023 * U < huge).
  { rewrite huge_eq. apply Z.mul_lt_mono_pos_r; [lia | reflexivity]. }
  destruct (Z.leb_spec huge (round_units (Z.abs n * U) d)); [lia|].
  eexists; reflexivity.
Qed.

Lemma of_int_ok z : Z.abs z <= 2 ^ 1023 -> exists k, of_int z = Ok (Fin k).
Proof.
  intros Hz. unfold of_int.
  destruct (round_finite z 1 ltac:(lia) ltac:(lia)) as (k & ->).
  exists k; reflexivity.
Qed.

Lemma int_truediv_ok a b :
  0 < b -> Z.abs a <= 2 ^ 1023 -> exists k, int_truediv a b = Ok (Fin k).
Proof.
  intros Hb Ha. unfold int_truediv.
  destruct (Z.eqb_spec b 0); [lia|].
  rewrite Z.sgn_pos, Z.mul_1_l, Z.abs_eq by lia.
  assert (2 ^ 1023 * 1 <= 2 ^ 1023 * b)
    by (apply Z.mul_le_mono_nonneg_l; [apply Z.pow_nonneg|]; lia).
  destruct (round_finite a b Hb ltac:(lia)) as (k & ->).
  exists k; reflexivity.
Qed.

Lemma div_by_zero x : div x (Fin 0) = Raise ZeroDivisionError.
Proof. destruct x; reflexivity. Qed.

(** *** Monotonicity of the operations *)

Lemma of_int_fin z x :
  of_int z = Ok x -> exists k, x = Fin k /\ round z 1 = Fin k.
Proof.
  unfold of_int, round. destruct (huge <=? _); intros E;
    [discriminate|]. injection E as <-. eexists; split; reflexivity.
Qed.

Lemma of_int_mono z z' k k' :
  0 <= z <= z' -> of_int z = Ok (Fin k) -> of_int z' = Ok (Fin k') ->
  0 <= k <= k'.
Proof.
  intros Hz E E'.
  apply of_int_fin in E. destruct E as (k0 & E0 & R). injection E0 as <-.
  apply of_int_fin in E'. destruct E' as (k0 & E0 & R'). injection E0 as <-.
  pose proof (round_mono z 1 z' 1 ltac:(lia) ltac:(lia) ltac:(lia) ltac:(lia)) as M.
  pose proof (round_is_nonneg z 1 ltac:(lia) ltac:(lia)) as N.
  rewrite R in *. rewrite R' in *. simpl in M, N.
  apply Z.leb_le in M. lia.
Qed.

Lemma of_int_pos z k : 1 <= z -> of_int z = Ok (Fin k) -> U <= k.
Proof.
  intros Hz E.
  assert (E1 : of_int 1 = Ok (Fin (1 * U))) by (apply of_int_exact; simpl; lia).
  pose proof (of_int_mono 1 z _ _ ltac:(lia) E1 E). lia.
Qed.





(** *** Rounding depends on the quotient only *)

Lemma rne_scale n d c : 0 < d -> 0 < c -> rne (n * c) (d * c) = rne n d.
Proof.
  intros Hd Hc. unfold rne.
  rewrite Z.div_mul_cancel_r by lia.
  rewrite Z.mul_mod_distr_r by lia.
  replace (2 * (n mod d * c)) with (2 * (n mod d) * c) by ring.
  rewrite <- Zmult_compare_compat_r by lia. reflexivity.
Qed.

Lemma shift_unique n d s :
  0 < d ->
  (s = 0 /\ n < d * 2 ^ 53) \/
  (1 <= s /\ d * 2 ^ (s + 52) <= n < d * 2 ^ (s + 53)) ->
  shift n d = s.
Proof.
  intros Hd Hs.
  assert (P : forall a b, 0 <= a -> 0 <= b -> a < b -> d * 2 ^ (a + 1) <= d * 2 ^ b).
  { intros a b Ha Hb Hab. apply Z.mul_le_mono_nonneg_l; [lia|].
    apply Z.pow_le_mono_r; lia. }
  destruct (shift_spec n d Hd) as [[E B]|[L [B1 B2]]];
    destruct Hs as [[E' B']|[L' [B1' B2']]].
  - lia.
  - exfalso. assert (d * 2 ^ (52 + 1) <= d * 2 ^ (s + 52)) by (apply P; lia).
    replace (52 + 1) with 53 in H by lia. lia.
  - exfalso. subst s.
    assert (d * 2 ^ (52 + 1) <= d * 2 ^ (shift n d + 52)) by (apply P; lia).
    replace (52 + 1) with 53 in H by lia. lia.
  - destruct (Z.lt_trichotomy (shift n d) s) as [C|[C|C]]; [|exact C|]; exfalso.
    + assert (d * 2 ^ (shift n d + 52 + 1) <= d * 2 ^ (s + 52)) by (apply P; lia).
      replace (shift n d + 52 + 1) with (shift n d + 53) in H by lia. lia.
    + assert (d * 2 ^ (s + 52 + 1) <= d * 2 ^ (shift n d + 52)) by (apply P; lia).
      replace (s + 52 + 1) with (s + 53) in H by lia. lia.
Qed.

Lemma shift_scale n d c : 0 < d -> 0 < c -> shift (n * c) (d * c) = shift n d.
Proof.
  intros Hd Hc. apply shift_unique; [nia|].
  destruct (shift_spec n d Hd) as [[E B]|[L [B1 B2]]]; [left | right].
  - split; [exact E|]. replace (d * c * 2 ^ 53) with (d * 2 ^ 53 * c) by ring.
    apply Z.mul_lt_mono_pos_r; lia.
  - split; [exact L|].
    replace (d * c * 2 ^ (shift n d + 52)) with (d * 2 ^ (shift n d + 52) * c) by ring.
    replace (d * c * 2 ^ (shift n d + 53)) with (d * 2 ^ (shift n d + 53) * c) by ring.
    split; [apply Z.mul_le_mono_nonneg_r | apply Z.mul_lt_mono_pos_r]; lia.
Qed.

Lemma round_units_scale n d c :
  0 < d -> 0 < c -> round_units (n * c) (d * c) = round_units n d.
Proof.
  intros Hd Hc. unfold round_units. rewrite shift_scale by assumption.
  assert (Hs : 0 <= shift n d) by (destruct (shift_spec n d Hd); lia).
  pose proof (pow2_gt0 _ Hs).
  replace (d * c * 2 ^ shift n d) with (d * 2 ^ shift n d * c) by ring.
  rewrite rne_scale by nia. reflexivity.
Qed.

Lemma round_scale n d c : 0 < d -> 0 < c -> round (n * c) (d * c) = round n d.
Proof.
  intros Hd Hc. unfold round.
  rewrite Z.abs_mul, (Z.abs_eq c) by lia.
  replace (Z.abs n * c * U) with (Z.abs n * U * c) by ring.
  rewrite round_units_scale by assumption.
  rewrite Z.sgn_mul, (Z.sgn_pos c), Z.mul_1_r by lia.
  replace (n * c <? 0) with (n <? 0); [reflexivity|].
  destruct (Z.ltb_spec n 0); destruct (Z.ltb_spec (n * c) 0); try reflexivity; nia.
Qed.

Lemma mul_comm x y : mul x y = mul y x.
Proof.
  destruct x as [a|s|]; destruct y as [b|s'|]; unfold mul; try reflexivity.
  - rewrite (Z.mul_comm a b). reflexivity.
  - rewrite xorb_comm. reflexivity.
Qed.

Lemma round_0 d : 0 < d -> round 0 d = Fin 0.
Proof. intros Hd. apply (round_exact 0 d 0); [lia | ring | simpl; lia]. Qed.
End PyFloatFacts.

(** ** The region splitters *)

Section Splitters.
Import PyFloat PyFloatFacts.

Lemma Qfloor_band H N t :
  0 < N -> Qfloor (inject_Z H / inject_Z N * inject_Z t)%Q = H * t / N.
Proof.
  intros HN. destruct N as [|p|p]; try lia.
  rewrite (Qfloor_comp _ ((H * t) # p)).
  - reflexivity.
  - unfold Qeq, Qdiv, Qmult, Qinv, inject_Z. simpl.
    rewrite Pos.mul_1_r. ring.
Qed.

Lemma horizontal_split_exact_eq W H N r :
  0 < N ->
  horizontal_split_exact (W, H) r N =
  mkRectangle 0 (H * r / N) W (H * (r + 1) / N).
Proof.
  intros HN. unfold horizontal_split_exact. simpl fst. simpl snd.
  rewrite !Qfloor_band by assumption. reflexivity.
Qed.

(** The boundary [floor (fl (fl (H / N) * t))] of a band: it is the exact
    [floor (H * t / N)] or one less, and the exact one as soon as [N]
    divides [H] or does not divide [H * t]. *)
Lemma band_boundary H N t :
  0 <= H -> 1 <= N <= 2 ^ 51 -> 0 <= t <= N -> H * N <= 2 ^ 51 ->
  exists kb kp,
    int_truediv H N = Ok (Fin kb) /\
    mul (Fin kb) (Fin (t * U)) = Fin kp /\
    (H * t / N - 1) * U <= kp < (H * t / N + 1) * U /\
    ((N | H) \/ ~ (N | H * t) -> H * t / N * U <= kp).
Proof.
  intros HH HN Ht Hb.
  pose proof U_pos as HU.
  assert (P51 : 2 ^ 51 < 2 ^ 53) by reflexivity.
  destruct (Z.eq_dec (H mod N) 0) as [D|D].
  { (* N divides H: nothing is rounded *)
    apply Z.mod_divide in D; [|lia]. destruct D as [h Eh].
    assert (0 <= h) by nia.
    assert (h <= H) by nia.
    assert (h * t <= 2 ^ 51) by nia.
    exists (h * U), (h * t * U).
    rewrite (int_truediv_exact H N h) by lia.
    rewrite mul_exact by lia.
    replace (H * t / N) with (h * t)
      by (subst H; replace (h * N * t) with (h * t * N) by ring;
          rewrite Z.div_mul; lia).
    repeat split; try lia; nia. }
  assert (H1 : 1 <= H) by (destruct (Z.eq_dec H 0) as [->|]; [rewrite Z.mod_0_l in D; lia | lia]).
  assert (U103 : 2 ^ 103 <= U) by (rewrite U_eq; apply Z.pow_le_mono_r; lia).
  assert (P103 : 2 ^ 103 = 2 ^ 51 * 2 ^ 52) by reflexivity.
  assert (P53 : 2 ^ 53 = 4 * 2 ^ 51) by reflexivity.
  assert (P52 : 2 ^ 52 = 2 * 2 ^ 51) by reflexivity.
  assert (P51' : 0 < 2 ^ 51) by reflexivity.
  (* the band height *)
  assert (Rb := round_units_rel (H * U) N ltac:(lia)).
  assert (NU : N * 2 ^ 52 <= H * U) by nia.
  specialize (Rb NU).
  set (kb := round_units (H * U) N) in *.
  assert (Hkb : 0 <= kb) by nia.
  assert (Fb : kb < huge).
  { rewrite huge_eq.
    assert (2 ^ 53 * 2 < 2 ^ 1024) by reflexivity.
    assert (2 ^ 53 * (N * kb) <= (2 ^ 53 + 1) * (2 ^ 51 * U)) by nia.
    nia. }
  assert (Eb : int_truediv H N = Ok (Fin kb)).
  { unfold int_truediv. destruct (Z.eqb_spec N 0); [lia|].
    rewrite Z.sgn_pos, Z.mul_1_l, Z.abs_eq by lia.
    rewrite round_nonneg by lia. cbv zeta. fold kb.
    destruct (Z.leb_spec huge kb); [lia | reflexivity]. }
  exists kb.
  destruct (Z.eq_dec t 0) as [->|T0].
  { exists 0. rewrite Z.mul_0_r, Z.div_0_l by lia.
    split; [exact Eb|]. split; [|split; [lia|]].
    - unfold mul. rewrite Z.mul_0_l, Z.mul_0_r.
      apply (round_exact 0 (U * U) 0); [nia | ring | simpl; lia].
    - intros _. lia. }
  (* the product *)
  set (X := kb * t).
  assert (HX : 2 ^ 52 <= X).
  { unfold X. assert (2 ^ 52 <= kb); [|nia].
    assert (2 ^ 53 * (N * kb) >= (2 ^ 53 - 1) * (H * U)) by lia.
    assert ((2 ^ 53 - 1) * (H * U) >= (2 ^ 53 - 1) * (2 ^ 51 * 2 ^ 52)) by nia.
    assert (2 ^ 53 * (N * kb) <= 2 ^ 53 * (2 ^ 51 * kb)) by nia.
    nia. }
  assert (Rp := round_units_rel (X * (U * U)) (U * U) ltac:(nia)).
  assert (XU : U * U * 2 ^ 52 <= X * (U * U)) by nia.
  specialize (Rp XU).
  set (kp := round_units (X * (U * U)) (U * U)) in *.
  assert (Rp' : (2 ^ 53 - 1) * X <= 2 ^ 53 * kp <= (2 ^ 53 + 1) * X).
  { assert (0 < U * U) by nia.
    split; apply Z.mul_le_mono_pos_r with (p := U * U); lia. }
  pose proof (Z.div_mod (H * t) N ltac:(lia)) as Eq.
  pose proof (Z.mod_pos_bound (H * t) N ltac:(lia)) as Bq.
  set (q := H * t / N) in *. set (rho := (H * t) mod N) in *.
  assert (Ht51 : H * t <= 2 ^ 51) by nia.
  set (c := 2 ^ 53) in *.
  assert (Hc : 0 < c) by reflexivity.
  set (A := H * t * U).
  assert (HA : A = q * U * N + rho * U) by (unfold A; rewrite Eq; ring).
  assert (R1 : (c - 1) * A <= c * (N * X) <= (c + 1) * A).
  { unfold A, X.
    replace (c * (N * (kb * t))) with (c * (N * kb) * t) by ring.
    replace ((c - 1) * (H * t * U)) with ((c - 1) * (H * U) * t) by ring.
    replace ((c + 1) * (H * t * U)) with ((c + 1) * (H * U) * t) by ring.
    split; apply Z.mul_le_mono_nonneg_r; lia. }
  assert (R2 : (c - 1) * (N * X) <= c * (N * kp) <= (c + 1) * (N * X)).
  { replace (c * (N * kp)) with (N * (c * kp)) by ring.
    replace ((c - 1) * (N * X)) with (N * ((c - 1) * X)) by ring.
    replace ((c + 1) * (N * X)) with (N * ((c + 1) * X)) by ring.
    split; apply Z.mul_le_mono_nonneg_l; lia. }
  assert (HA0 : 0 <= A) by (unfold A; nia).
  assert (Hi : c * (c * (N * kp)) <= c * (c * A + 3 * A)).
  { assert (c * (c * (N * kp)) <= (c + 1) * (c * (N * X))) by nia.
    assert ((c + 1) * (c * (N * X)) <= (c + 1) * ((c + 1) * A)) by nia.
    nia. }
  apply Z.mul_le_mono_pos_l in Hi; [|lia].
  assert (Lo : c * (c * A - 2 * A) <= c * (c * (N * kp))).
  { assert ((c - 1) * (c * (N * X)) <= c * (c * (N * kp))) by nia.
    assert ((c - 1) * ((c - 1) * A) <= (c - 1) * (c * (N * X))) by nia.
    nia. }
  apply Z.mul_le_mono_pos_l in Lo; [|lia].
  assert (A51 : A <= 2 ^ 51 * U) by (unfold A; apply Z.mul_le_mono_nonneg_r; lia).
  assert (A4 : 4 * A <= c * U).
  { replace (c * U) with (4 * (2 ^ 51 * U)) by (rewrite P53; ring). lia. }
  assert (Hq0 : 0 <= q) by (apply Z.div_pos; [apply Z.mul_nonneg_nonneg|]; lia).
  assert (Hq51 : q <= 2 ^ 51) by (clear - Eq Bq HN Ht51 Hq0; nia).
  assert (Up : kp < (q + 1) * U).
  { assert (F : c * (N * kp) < c * (N * ((q + 1) * U))).
    { replace (N * ((q + 1) * U)) with (A + (N - rho) * U) by (rewrite HA; ring).
      assert (c * (1 * U) <= c * ((N - rho) * U)).
      { apply Z.mul_le_mono_nonneg_l; [lia|].
        apply Z.mul_le_mono_nonneg_r; lia. }
      lia. }
    apply Z.mul_lt_mono_pos_l in F; [|lia].
    apply Z.mul_lt_mono_pos_l in F; lia. }
  assert (Fp : kp < huge).
  { rewrite huge_eq.
    assert ((q + 1) * U <= (2 ^ 51 + 1) * U)
      by (apply Z.mul_le_mono_nonneg_r; lia).
    assert ((2 ^ 51 + 1) * U < 2 ^ 1024 * U)
      by (apply Z.mul_lt_mono_pos_r; [lia | reflexivity]).
    lia. }
  exists kp. split; [exact Eb|]. split.
  { unfold mul. rewrite round_nonneg; [| apply Z.mul_nonneg_nonneg; [|apply Z.mul_nonneg_nonneg]; lia | apply Z.mul_pos_pos; lia ].
    cbv zeta.
    replace (kb * (t * U) * U) with (X * (U * U)) by (unfold X; ring).
    fold kp. destruct (Z.leb_spec huge kp); [lia | reflexivity]. }
  split; [split; [|exact Up]|].
  - assert (F : c * (N * ((q - 1) * U)) <= c * (N * kp)); [|
      apply Z.mul_le_mono_pos_l in F; [|lia];
      apply Z.mul_le_mono_pos_l in F; lia].
    replace (N * ((q - 1) * U)) with (A - rho * U - N * U) by (rewrite HA; ring).
    assert (c * (1 * U) <= c * (N * U)).
    { apply Z.mul_le_mono_nonneg_l; [lia|].
      apply Z.mul_le_mono_nonneg_r; lia. }
    assert (0 <= c * (rho * U)).
    { apply Z.mul_nonneg_nonneg; [lia|]. apply Z.mul_nonneg_nonneg; lia. }
    lia.
  - intros [Dv|Dv]; [exfalso; apply D; apply Z.mod_divide; [lia | exact Dv]|].
    assert (1 <= rho).
    { destruct (Z.eq_dec rho 0) as [R0|]; [|lia].
      exfalso. apply Dv. apply Z.mod_divide; [lia | exact R0]. }
    assert (F : c * (N * (q * U)) <= c * (N * kp)); [|
      apply Z.mul_le_mono_pos_l in F; [|lia];
      apply Z.mul_le_mono_pos_l in F; lia].
    replace (N * (q * U)) with (A - rho * U) by (rewrite HA; ring).
    assert (c * (1 * U) <= c * (rho * U)).
    { apply Z.mul_le_mono_nonneg_l; [lia|].
      apply Z.mul_le_mono_nonneg_r; lia. }
    lia.
Qed.

Lemma floor_between k q : q * U <= k < (q + 1) * U -> floor (Fin k) = Ok q.
Proof.
  intros B. unfold floor. f_equal. pose proof U_pos.
  symmetry. apply Z.div_unique with (r := k - q * U); lia.
Qed.

Lemma one_eq : one = Fin (1 * U).
Proof. unfold one. rewrite Z.mul_1_l. reflexivity. Qed.

Lemma int_add_float_one z :
  0 <= z < 2 ^ 53 -> int_add_float z one = Ok (Fin ((z + 1) * U)).
Proof.
  intros Hz. unfold int_add_float.
  rewrite of_int_exact by lia. cbn [bind].
  rewrite one_eq, add_exact by lia. reflexivity.
Qed.

(** *** The boundaries of the bands *)

(** The boundaries [b t = floor (fl (fl (H / N) * t))] of a length [H] cut
    in [N]: they start at 0, do not decrease, and are the exact
    [floor (H * t / N)] or one less. *)
Lemma band_core H N :
  0 <= H -> 1 <= N <= 2 ^ 51 -> H * N <= 2 ^ 51 ->
  exists kb (b : Z -> Z),
    int_truediv H N = Ok (Fin kb) /\
    (forall t, 0 <= t <= N -> floor (mul (Fin kb) (Fin (t * U))) = Ok (b t)) /\
    b 0 = 0 /\
    (forall i j, 0 <= i <= j -> j <= N -> b i <= b j) /\
    (forall t, 0 <= t <= N -> H * t / N - 1 <= b t <= H * t / N) /\
    (forall t, 0 <= t <= N -> (N | H) \/ ~ (N | H * t) -> b t = H * t / N).
Proof.
  intros HH HN Hb. pose proof U_pos as HU.
  destruct (band_boundary H N 0 HH HN ltac:(lia) Hb) as (kb & _ & Eb & _).
  assert (Hkb : 0 <= kb).
  { revert Eb. unfold int_truediv. destruct (Z.eqb_spec N 0); [lia|].
    rewrite Z.sgn_pos, Z.mul_1_l, Z.abs_eq by lia.
    destruct (round_nonneg_cases H N HH ltac:(lia)) as [[-> _]|[-> B]];
      [discriminate|].
    intros E. apply Ok_inj in E. injection E as <-. lia. }
  set (b := fun t => match mul (Fin kb) (Fin (t * U)) with
                     | Fin kp => kp / U
                     | _ => 0
                     end).
  assert (Hval : forall t, 0 <= t <= N ->
            exists kp, mul (Fin kb) (Fin (t * U)) = Fin kp /\ b t = kp / U /\
                       (H * t / N - 1) * U <= kp < (H * t / N + 1) * U /\
                       ((N | H) \/ ~ (N | H * t) -> H * t / N * U <= kp)).
  { intros t Ht.
    destruct (band_boundary H N t HH HN Ht Hb) as (kb' & kp & Eb' & Em & B & X).
    rewrite Eb in Eb'. apply Ok_inj in Eb'. injection Eb' as <-.
    exists kp. unfold b. rewrite Em. repeat split; try lia. exact X. }
  exists kb, b. split; [exact Eb|]. split; [|split; [|split; [|split]]].
  - intros t Ht. destruct (Hval t Ht) as (kp & -> & -> & _). reflexivity.
  - unfold b. unfold mul. rewrite Z.mul_0_l, Z.mul_0_r.
    rewrite round_0 by (apply Z.mul_pos_pos; lia).
    apply Z.div_0_l. lia.
  - intros i j Hij Hj.
    destruct (Hval i ltac:(lia)) as (ki & Ei & -> & _).
    destruct (Hval j ltac:(lia)) as (kj & Ej & -> & _).
    apply Z.div_le_mono; [lia|].
    assert (M : leb (mul (Fin kb) (Fin (i * U))) (mul (Fin kb) (Fin (j * U))) = true).
    { unfold mul. apply round_mono.
      - apply Z.mul_nonneg_nonneg; [lia|]. apply Z.mul_nonneg_nonneg; lia.
      - apply Z.mul_pos_pos; lia.
      - apply Z.mul_pos_pos; lia.
      - apply Z.mul_le_mono_nonneg_r; [apply Z.mul_nonneg_nonneg; lia|].
        apply Z.mul_le_mono_nonneg_l; [lia|].
        apply Z.mul_le_mono_nonneg_r; lia. }
    rewrite Ei, Ej in M. cbn [leb] in M. apply Z.leb_le. exact M.
  - intros t Ht. destruct (Hval t Ht) as (kp & _ & -> & B & _).
    split.
    + apply Z.div_le_lower_bound; lia.
    + assert (kp / U < H * t / N + 1); [|lia].
      apply Z.div_lt_upper_bound; lia.
  - intros t Ht C. destruct (Hval t Ht) as (kp & _ & -> & B & X).
    specialize (X C).
    symmetry. apply Z.div_unique with (r := kp - H * t / N * U); lia.
Qed.

Lemma whole_quotient H N : 1 <= N -> H * N / N = H.
Proof. intros HN. apply Z.div_mul. lia. Qed.

Lemma quotient_le H N t : 0 <= H -> 1 <= N -> 0 <= t <= N -> H * t / N <= H.
Proof.
  intros HH HN Ht. apply Z.div_le_upper_bound; [lia|].
  rewrite (Z.mul_comm N H). apply Z.mul_le_mono_nonneg_l; lia.
Qed.

(** A band from the band height [Fin kb] and the floors [b] of its
    products. *)
Lemma horizontal_split_of_core H N kb (b : Z -> Z) :
  N <= 2 ^ 53 ->
  int_truediv H N = Ok (Fin kb) ->
  (forall t, 0 <= t <= N -> floor (mul (Fin kb) (Fin (t * U))) = Ok (b t)) ->
  forall W r, 0 <= r < N ->
    horizontal_split (W, H) r N = Ok (mkRectangle 0 (b r) W (b (r + 1))).
Proof.
  intros HN Eb Hfl W r Hr.
  unfold horizontal_split, float_mul_int. cbn [fst snd].
  destruct (Z.ltb_spec r N); [|lia]. cbn [negb].
  rewrite Eb. cbn [bind].
  rewrite of_int_exact by lia. cbn [bind].
  rewrite (Hfl r) by lia. cbn [bind].
  rewrite int_add_float_one by lia. cbn [bind].
  rewrite (Hfl (r + 1)) by lia. reflexivity.
Qed.

(** The bands of [horizontal_split], by their boundaries. *)
Lemma band_boundaries H N :
  0 <= H -> 1 <= N <= 2 ^ 51 -> H * N <= 2 ^ 51 ->
  exists b : Z -> Z,
    (forall W r, 0 <= r < N ->
       horizontal_split (W, H) r N = Ok (mkRectangle 0 (b r) W (b (r + 1)))) /\
    b 0 = 0 /\
    (forall i j, 0 <= i <= j -> j <= N -> b i <= b j) /\
    (forall t, 0 <= t <= N -> H * t / N - 1 <= b t <= H * t / N) /\
    (forall t, 0 <= t <= N -> (N | H) \/ ~ (N | H * t) -> b t = H * t / N).
Proof.
  intros HH HN Hb.
  assert (P51 : 2 ^ 51 < 2 ^ 53) by reflexivity.
  destruct (band_core H N HH HN Hb) as (kb & b & Eb & Hfl & B0 & Bm & Bq & Bx).
  exists b. split; [|repeat split; try assumption; apply Bq; assumption].
  apply (horizontal_split_of_core H N kb b); [lia | exact Eb | exact Hfl].
Qed.

(** The last boundary of 61 rows cut in 7: [fl (fl (61 / 7) * 7)] is below
    61. *)
Lemma last_boundary_61_7 :
  (h <- int_truediv 61 7 ;; floor (mul h (Fin (7 * U)))) = Ok 60.
Proof. vm_compute. reflexivity. Qed.

(** The boundaries of 61 rows cut in 7. *)
Lemma core_61_7 :
  exists kb (b : Z -> Z),
    int_truediv 61 7 = Ok (Fin kb) /\
    (forall t, 0 <= t <= 7 -> floor (mul (Fin kb) (Fin (t * U))) = Ok (b t)) /\
    b 0 = 0 /\ b 1 = 8 /\ b 2 = 17 /\ b 3 = 26 /\ b 4 = 34 /\ b 5 = 43 /\
    b 6 = 52 /\ b 7 = 60.
Proof.
  destruct (band_core 61 7 ltac:(lia) ltac:(lia) ltac:(lia))
    as (kb & b & Eb & Hfl & B0 & _ & _ & Bx).
  exists kb, b. split; [exact Eb|]. split; [exact Hfl|]. split; [exact B0|].
  assert (X : forall t q, 0 <= t <= 7 -> 61 * t = 7 * q + 61 * t mod 7 ->
              0 < 61 * t mod 7 < 7 -> 61 * t / 7 = q -> b t = q).
  { intros t q Ht _ Hm <-. apply Bx; [exact Ht|]. right. intros D.
    apply Z.mod_divide in D; lia. }
  pose proof last_boundary_61_7 as L. rewrite Eb in L. cbn [bind] in L.
  rewrite (Hfl 7) in L by lia. apply Ok_inj in L.
  repeat split; try exact L;
    (apply X; [lia | reflexivity | split; reflexivity | reflexivity]).
Qed.

(** A tile from the floor [row] of the rounded quotient
    [region / num_splits]: every other operation is exact. *)
Lemma tile_split_from_row W H N region row :
  1 <= N -> region < N * N -> 0 <= W < 2 ^ 53 -> 0 <= H < 2 ^ 53 ->
  (q <- int_truediv region N ;; floor q) = Ok row ->
  region mod N < 2 ^ 53 -> Z.abs row < 2 ^ 53 ->
  W / N * (region mod N + 1) <= 2 ^ 53 ->
  Z.abs (H / N * (row + 1)) <= 2 ^ 53 ->
  tile_split (W, H) region N
  = Ok (mkRectangle (W / N * (region mod N)) (H / N * row)
                    (W / N * (region mod N + 1)) (H / N * (row + 1))).
Proof.
  intros HN Hr HW HH Hq Hc53 Hr53 Xw Xh.
  destruct (int_truediv_floor W N HW ltac:(lia)) as (kw & Ew & Bw).
  destruct (int_truediv_floor H N HH ltac:(lia)) as (kh & Eh & Bh).
  pose proof (Z.mod_pos_bound region N ltac:(lia)) as Bc.
  assert (Tw0 : 0 <= W / N) by (apply Z.div_pos; lia).
  assert (Th0 : 0 <= H / N) by (apply Z.div_pos; lia).
  assert (Tw : W / N <= W).
  { apply Z.div_le_upper_bound; [lia|].
    assert (1 * W <= N * W) by (apply Z.mul_le_mono_nonneg_r; lia). lia. }
  assert (Th : H / N <= H).
  { apply Z.div_le_upper_bound; [lia|].
    assert (1 * H <= N * H) by (apply Z.mul_le_mono_nonneg_r; lia). lia. }
  set (col := region mod N) in *.
  set (tw := W / N) in *. set (th := H / N) in *.
  assert (Xw0 : 0 <= tw * (col + 1)) by (apply Z.mul_nonneg_nonneg; lia).
  unfold tile_split, int_mul_float, int_add_float. cbn [fst snd].
  destruct (Z.ltb_spec region (N * N)); [|lia]. cbn [negb].
  destruct (int_truediv region N) as [q|e]; cbn [bind] in Hq |- *;
    [|discriminate].
  rewrite Hq. cbn [bind].
  rewrite Ew. cbn [bind]. rewrite (floor_between kw tw) by exact Bw. cbn [bind].
  rewrite Eh. cbn [bind]. rewrite (floor_between kh th) by exact Bh. cbn [bind].
  fold col.
  rewrite (of_int_exact col) by lia. cbn [bind].
  rewrite one_eq, add_exact by lia.
  rewrite (of_int_exact tw) by lia. cbn [bind].
  rewrite mul_exact by lia. rewrite floor_exact. cbn [bind].
  rewrite (of_int_exact row) by lia. cbn [bind].
  rewrite add_exact by lia.
  rewrite (of_int_exact th) by lia. cbn [bind].
  rewrite mul_exact by exact Xh. rewrite floor_exact. cbn [bind].
  reflexivity.
Qed.

(** The tile of a region, below [2^53]. *)
Lemma tile_split_cell W H N region :
  0 <= W < 2 ^ 53 -> 0 <= H < 2 ^ 53 -> 1 <= N ->
  0 <= region < N * N -> region < 2 ^ 53 ->
  tile_split (W, H) region N
  = Ok (mkRectangle (W / N * (region mod N)) (H / N * (region / N))
                    (W / N * (region mod N + 1)) (H / N * (region / N + 1))).
Proof.
  intros HW HH HN Hr Hr53.
  pose proof (Z.mod_pos_bound region N ltac:(lia)) as Bc.
  pose proof (Z.div_mod region N ltac:(lia)) as Dr.
  pose proof (Z.div_mod W N ltac:(lia)) as Dw.
  pose proof (Z.mod_pos_bound W N ltac:(lia)) as Mw.
  pose proof (Z.div_mod H N ltac:(lia)) as Dh.
  pose proof (Z.mod_pos_bound H N ltac:(lia)) as Mh.
  assert (Row0 : 0 <= region / N) by (apply Z.div_pos; lia).
  assert (Row : region / N < N) by (apply Z.div_lt_upper_bound; lia).
  assert (Tw0 : 0 <= W / N) by (apply Z.div_pos; lia).
  assert (Th0 : 0 <= H / N) by (apply Z.div_pos; lia).
  assert (F5 : (q <- int_truediv region N ;; floor q) = Ok (region / N))
    by (apply int_truediv_floor_eq; lia).
  set (row := region / N) in *. set (col := region mod N) in *.
  set (tw := W / N) in *. set (th := H / N) in *.
  assert (Cr : col <= region) by (clear - Dr Bc Row0 HN; nia).
  assert (Rr : row <= region) by (clear - Dr Bc Row0 HN; nia).
  assert (Tw : tw <= W) by (clear - Dw Mw Tw0 HN; nia).
  assert (Th : th <= H) by (clear - Dh Mh Th0 HN; nia).
  assert (F3 : tw * (col + 1) <= 2 ^ 53).
  { assert (tw * (col + 1) <= tw * N) by (apply Z.mul_le_mono_nonneg_l; lia).
    lia. }
  assert (F4 : Z.abs (th * (row + 1)) <= 2 ^ 53).
  { assert (th * (row + 1) <= th * N) by (apply Z.mul_le_mono_nonneg_l; lia).
    assert (0 <= th * (row + 1)) by (apply Z.mul_nonneg_nonneg; lia).
    lia. }
  assert (F1 : col < 2 ^ 53) by lia.
  assert (F2 : Z.abs row < 2 ^ 53) by lia.
  assert (F0 : region < N * N) by lia.
  exact (tile_split_from_row W H N region row HN F0 HW HH F5 F1 F2 F3 F4).
Qed.

(** The quotients that the examples below need, each rounded once. *)
Lemma quotient_large_region :
  (q <- int_truediv 18014398643699711 134217729 ;; floor q) = Ok 134217728.
Proof. vm_compute. reflexivity. Qed.

Lemma quotient_minus_1_3 : (q <- int_truediv (-1) 3 ;; floor q) = Ok (-1).
Proof. vm_compute. reflexivity. Qed.

Lemma band_minus_1_3 :
  (h <- int_truediv 10 3 ;; floor (mul h (Fin (-1 * U)))) = Ok (-4).
Proof. vm_compute. reflexivity. Qed.

(** C1 (as amended): a band has [min_x = 0] and [max_x = W], and its
    [min_y] and [max_y] are the exact [floor (H * r / N)] and
    [floor (H * (r + 1) / N)] whenever [N] divides [H], or does not divide
    the product [H * r] (respectively [H * (r + 1)]); the bounds keep the
    binary64 products within reach of the exact ones. *)
Theorem horizontal_split_bands W H N r :
  0 <= H -> 1 <= N <= 2 ^ 51 -> H * N <= 2 ^ 51 -> 0 <= r < N ->
  exists rect,
    horizontal_split (W, H) r N = Ok rect /\
    min_x rect = 0 /\ max_x rect = W /\
    ((N | H) \/ ~ (N | H * r) ->
     min_y rect = min_y (horizontal_split_exact (W, H) r N)) /\
    ((N | H) \/ ~ (N | H * (r + 1)) ->
     max_y rect = max_y (horizontal_split_exact (W, H) r N)).
Proof.
  intros HH HN Hb Hr.
  destruct (band_boundary H N r HH HN ltac:(lia) Hb)
    as (kb & k0 & Eb & E0 & B0 & X0).
  destruct (band_boundary H N (r + 1) HH HN ltac:(lia) Hb)
    as (kb' & k1 & Eb' & E1 & B1 & X1).
  rewrite Eb in Eb'. injection Eb' as <-.
  assert (P51 : 2 ^ 51 < 2 ^ 53) by reflexivity.
  pose proof U_pos as HU.
  exists (mkRectangle 0 (k0 / U) W (k1 / U)).
  rewrite horizontal_split_exact_eq by lia. cbn [min_x min_y max_x max_y].
  split.
  { unfold horizontal_split, float_mul_int. cbn [fst snd].
    destruct (Z.ltb_spec r N); [|lia]. cbn [negb].
    rewrite Eb. cbn [bind].
    rewrite of_int_exact by lia. cbn [bind].
    rewrite E0. cbn [floor bind].
    rewrite int_add_float_one by lia. cbn [bind].
    rewrite E1. cbn [floor bind]. reflexivity. }
  split; [reflexivity|]. split; [reflexivity|]. split.
  - intros C. specialize (X0 C).
    symmetry. apply Z.div_unique with (r := k0 - H * r / N * U); lia.
  - intros C. specialize (X1 C).
    symmetry. apply Z.div_unique with (r := k1 - H * (r + 1) / N * U); lia.
Qed.

(** The whole image is the one band of a split in one. *)
Lemma horizontal_split_bands_witness :
  (0 <= 100 /\ 1 <= 1 <= 2 ^ 51 /\ 100 * 1 <= 2 ^ 51 /\ 0 <= 0 < 1) /\
  exists rect,
    horizontal_split (100, 100) 0 1 = Ok rect /\
    min_x rect = 0 /\ max_x rect = 100 /\
    ((1 | 100) \/ ~ (1 | 100 * 0) ->
     min_y rect = min_y (horizontal_split_exact (100, 100) 0 1)) /\
    ((1 | 100) \/ ~ (1 | 100 * (0 + 1)) ->
     max_y rect = max_y (horizontal_split_exact (100, 100) 0 1)).
Proof.
  split; [lia|].
  apply (horizontal_split_bands 100 100 1 0); lia.
Defined.

(** C1, as the claim states it, fails: [floor (fl (fl (61 / 7) * 7))] is
    60, not 61. *)
Lemma horizontal_split_inexact :
  horizontal_split (100, 61) 6 7 = Ok (mkRectangle 0 52 100 60) /\
  horizontal_split_exact (100, 61) 6 7 = mkRectangle 0 52 100 61.
Proof.
  destruct core_61_7
    as (kb & b & Eb & Hfl & B0 & B1 & B2 & B3 & B4 & B5 & B6 & B7).
  split.
  - rewrite (horizontal_split_of_core 61 7 kb b ltac:(lia) Eb Hfl 100 6
               ltac:(lia)).
    change (6 + 1) with 7. rewrite B6, B7. reflexivity.
  - vm_compute. reflexivity.
Qed.

Example horizontal_split_whole_image :
  horizontal_split (100, 100) 0 1 = Ok (mkRectangle 0 0 100 100).
Proof.
  destruct (band_boundaries 100 1 ltac:(lia) ltac:(lia) ltac:(lia))
    as (b & Hs & B0 & _ & _ & Bx).
  rewrite (Hs 100 0 ltac:(lia)). change (0 + 1) with 1.
  rewrite B0, (Bx 1 ltac:(lia)) by (left; exists 100; reflexivity).
  reflexivity.
Qed.

(** C3 (as amended): below [2^53], where the conversions between ints and
    floats are exact, a tile is the cell [(region / N, region mod N)] of the
    grid of [floor (W / N)] by [floor (H / N)] cells. *)
Theorem tile_split_grid W H N region :
  0 <= W < 2 ^ 53 -> 0 <= H < 2 ^ 53 -> 1 <= N ->
  0 <= region < N * N -> region < 2 ^ 53 ->
  tile_split (W, H) region N = Ok (tile_split_exact (W, H) region N).
Proof.
  intros HW HH HN Hr Hr53.
  destruct (int_truediv_floor region N ltac:(lia) ltac:(lia)) as (kr & Er & Br).
  destruct (int_truediv_floor W N HW ltac:(lia)) as (kw & Ew & Bw).
  destruct (int_truediv_floor H N HH ltac:(lia)) as (kh & Eh & Bh).
  pose proof (Z.mod_pos_bound region N ltac:(lia)) as Bc.
  pose proof (Z.div_mod region N ltac:(lia)) as Dr.
  pose proof (Z.div_mod W N ltac:(lia)) as Dw.
  pose proof (Z.mod_pos_bound W N ltac:(lia)) as Mw.
  pose proof (Z.div_mod H N ltac:(lia)) as Dh.
  pose proof (Z.mod_pos_bound H N ltac:(lia)) as Mh.
  assert (Row0 : 0 <= region / N) by (apply Z.div_pos; lia).
  assert (Row : region / N < N) by (apply Z.div_lt_upper_bound; lia).
  assert (Tw0 : 0 <= W / N) by (apply Z.div_pos; lia).
  assert (Th0 : 0 <= H / N) by (apply Z.div_pos; lia).
  set (row := region / N) in *. set (col := region mod N) in *.
  set (tw := W / N) in *. set (th := H / N) in *.
  assert (Cr : col <= region) by (clear - Dr Bc Row0 HN; nia).
  assert (Rr : row <= region) by (clear - Dr Bc Row0 HN; nia).
  assert (Tw : tw <= W) by (clear - Dw Mw Tw0 HN; nia).
  assert (Th : th <= H) by (clear - Dh Mh Th0 HN; nia).
  assert (Xw : tw * (col + 1) <= W).
  { assert (tw * (col + 1) <= tw * N) by (apply Z.mul_le_mono_nonneg_l; lia).
    lia. }
  assert (Xh : th * (row + 1) <= H).
  { assert (th * (row + 1) <= th * N) by (apply Z.mul_le_mono_nonneg_l; lia).
    lia. }
  assert (Xw0 : 0 <= tw * (col + 1)) by (apply Z.mul_nonneg_nonneg; lia).
  assert (Xh0 : 0 <= th * (row + 1)) by (apply Z.mul_nonneg_nonneg; lia).
  unfold tile_split, tile_split_exact, int_mul_float. cbn [fst snd].
  destruct (Z.ltb_spec region (N * N)); [|lia]. cbn [negb].
  rewrite Er. cbn [bind]. rewrite (floor_between kr row) by exact Br. cbn [bind].
  rewrite Ew. cbn [bind]. rewrite (floor_between kw tw) by exact Bw. cbn [bind].
  rewrite Eh. cbn [bind]. rewrite (floor_between kh th) by exact Bh. cbn [bind].
  fold col.
  rewrite int_add_float_one by lia. cbn [bind].
  rewrite of_int_exact by lia. cbn [bind].
  rewrite mul_exact by lia. rewrite floor_exact. cbn [bind].
  rewrite int_add_float_one by lia. cbn [bind].
  rewrite of_int_exact by lia. cbn [bind].
  rewrite mul_exact by lia. rewrite floor_exact. cbn [bind].
  reflexivity.
Qed.

(** The bottom-right tile of a 10 by 10 image cut in 3 by 3. *)
Lemma tile_split_grid_witness :
  (0 <= 10 < 2 ^ 53 /\ 0 <= 10 < 2 ^ 53 /\ 1 <= 3 /\
   0 <= 8 < 3 * 3 /\ 8 < 2 ^ 53) /\
  tile_split (10, 10) 8 3 = Ok (tile_split_exact (10, 10) 8 3).
Proof.
  split; [lia|].
  apply (tile_split_grid 10 10 3 8); lia.
Defined.

(** C3, as the claim states it, fails once the region index needs more
    than 53 bits: with [N = 2^27 + 1] and [region = 2^27 * N - 1] the
    rounded quotient [region / N] is [2^27], one row too far. *)
Lemma tile_split_large_region :
  0 <= 18014398643699711 < 134217729 * 134217729 /\
  tile_split (134217729, 134217729) 18014398643699711 134217729
  = Ok (mkRectangle 134217728 134217728 134217729 134217729) /\
  tile_split_exact (134217729, 134217729) 18014398643699711 134217729
  = mkRectangle 134217728 134217727 134217729 134217728.
Proof.
  split; [lia|]. split; [|vm_compute; reflexivity].
  rewrite (tile_split_from_row 134217729 134217729 134217729
             18014398643699711 134217728);
    [ reflexivity | lia | lia | lia | lia | exact quotient_large_region
    | reflexivity | reflexivity
    | apply Z.leb_le; reflexivity | apply Z.leb_le; reflexivity ].
Qed.

(** *** Which errors the splitters raise *)

Lemma bind_no_assert {A B} (c : result A) (k : A -> result B) :
  no_assert c -> (forall a, no_assert (k a)) -> no_assert (bind c k).
Proof.
  unfold no_assert. intros Hc Hk. destruct c; cbn [bind]; [apply Hk|].
  intros E. apply Hc. injection E as ->. reflexivity.
Qed.

Lemma of_int_no_assert z : no_assert (of_int z).
Proof. unfold no_assert, of_int. destruct (round z 1); discriminate. Qed.

Lemma int_truediv_no_assert a b : no_assert (int_truediv a b).
Proof.
  unfold no_assert, int_truediv.
  destruct (b =? 0); [discriminate|].
  destruct (round _ _); discriminate.
Qed.

Lemma floor_no_assert x : no_assert (floor x).
Proof. unfold no_assert. destruct x; discriminate. Qed.

Lemma ok_no_assert {A} (a : A) : no_assert (Ok a).
Proof. discriminate. Qed.

Lemma horizontal_split_assert size region N :
  horizontal_split size region N = Raise AssertionError <-> N <= region.
Proof.
  unfold horizontal_split.
  destruct (Z.ltb_spec region N); cbn [negb]; split; try lia; try reflexivity.
  intros E. exfalso. revert E.
  unfold float_mul_int, int_add_float.
  repeat first
    [ apply ok_no_assert | apply of_int_no_assert | apply floor_no_assert
    | apply int_truediv_no_assert | apply bind_no_assert; [|intro] ].
Qed.

Lemma tile_split_assert size region N :
  tile_split size region N = Raise AssertionError <-> N * N <= region.
Proof.
  unfold tile_split.
  destruct (Z.ltb_spec region (N * N)); cbn [negb]; split; try lia; try reflexivity.
  intros E. exfalso. revert E.
  unfold int_mul_float, int_add_float.
  repeat first
    [ apply ok_no_assert | apply of_int_no_assert | apply floor_no_assert
    | apply int_truediv_no_assert | apply bind_no_assert; [|intro] ].
Qed.

(** C4 (as amended): the assertion of a splitter fails exactly when the
    region index reaches the number of regions; nothing rejects a negative
    index.  Region 9 of a 3 by 3 grid is rejected and region 8 is its
    bottom-right tile. *)
Theorem split_assertion :
  (forall size region N,
      horizontal_split size region N = Raise AssertionError <-> N <= region) /\
  (forall size region N,
      tile_split size region N = Raise AssertionError <-> N * N <= region) /\
  tile_split (10, 10) 9 3 = Raise AssertionError /\
  tile_split (10, 10) 8 3 = Ok (mkRectangle 6 6 9 9).
Proof.
  split; [exact horizontal_split_assert|].
  split; [exact tile_split_assert|].
  split.
  - apply tile_split_assert. lia.
  - rewrite tile_split_cell by lia. reflexivity.
Qed.

(** C4, as the claim states it, fails: region -1 is outside
    [[0, num_splits)] and both splitters return a rectangle for it. *)
Lemma split_negative_region :
  horizontal_split (10, 10) (-1) 3 = Ok (mkRectangle 0 (-4) 10 0) /\
  tile_split (10, 10) (-1) 3 = Ok (mkRectangle 6 (-3) 9 0).
Proof.
  pose proof U_pos as HU. split.
  - assert (A1 : Z.abs (-1) <= 2 ^ 53) by (change (Z.abs (-1)) with 1; lia).
    assert (A0 : Z.abs (-1 + 1) <= 2 ^ 53)
      by (change (Z.abs (-1 + 1)) with 0; lia).
    pose proof band_minus_1_3 as L.
    destruct (int_truediv_floor 10 3 ltac:(lia) ltac:(lia)) as (k & Ek & _).
    rewrite Ek in L. cbn [bind] in L.
    unfold horizontal_split, float_mul_int, int_add_float. cbn [fst snd].
    change (negb (-1 <? 3)) with false. cbv iota.
    rewrite Ek. cbn [bind].
    rewrite (of_int_exact (-1)) by exact A1. cbn [bind].
    rewrite L. cbn [bind].
    rewrite one_eq, add_exact by exact A0.
    change (-1 + 1) with 0. unfold mul.
    rewrite Z.mul_0_l, Z.mul_0_r, round_0 by (apply Z.mul_pos_pos; lia).
    unfold floor. rewrite Z.div_0_l by lia. reflexivity.
  - rewrite (tile_split_from_row 10 10 3 (-1) (-1));
      [ reflexivity | lia | lia | lia | lia | exact quotient_minus_1_3
      | reflexivity | reflexivity
      | apply Z.leb_le; reflexivity | apply Z.leb_le; reflexivity ].
Qed.

(** X18: consecutive bands share their boundary, whatever the image size
    and the number of splits: the two products are the same float. *)
Lemma horizontal_split_contiguous size N r a b :
  0 <= r < 2 ^ 53 ->
  horizontal_split size r N = Ok a ->
  horizontal_split size (r + 1) N = Ok b ->
  max_y a = min_y b.
Proof.
  intros Hr. unfold horizontal_split, float_mul_int.
  destruct (negb (r <? N)); [discriminate|].
  destruct (negb (r + 1 <? N)); [discriminate|].
  destruct (int_truediv (snd size) N) as [bh|]; [|discriminate]. cbn [bind].
  rewrite int_add_float_one by lia.
  rewrite (of_int_exact (r + 1)) by lia. cbn [bind].
  destruct (of_int r) as [fr|]; [|discriminate]. cbn [bind].
  destruct (floor (mul bh fr)); [|discriminate]. cbn [bind].
  destruct (floor (mul bh (Fin ((r + 1) * U)))) as [y|]; [|discriminate].
  cbn [bind].
  destruct (int_add_float (r + 1) one); [|discriminate]. cbn [bind].
  destruct (floor (mul bh _)); [|discriminate]. cbn [bind].
  intros Ea Eb. injection Ea as <-. injection Eb as <-. reflexivity.
Qed.

(** C2: the bands of a 61-row image cut in 7 are contiguous from row 0 but
    the last one stops at row 60: [floor (fl (fl (61 / 7) * 7)) = 60], and
    row 60 of the image is in no band. *)
Theorem horizontal_split_misses_last_row :
  mapM (fun r => horizontal_split (100, 61) r 7) (range 0 7)
  = Ok [mkRectangle 0 0 100 8; mkRectangle 0 8 100 17;
        mkRectangle 0 17 100 26; mkRectangle 0 26 100 34;
        mkRectangle 0 34 100 43; mkRectangle 0 43 100 52;
        mkRectangle 0 52 100 60].
Proof.
  destruct core_61_7
    as (kb & b & Eb & Hfl & B0 & B1 & B2 & B3 & B4 & B5 & B6 & B7).
  pose proof (horizontal_split_of_core 61 7 kb b ltac:(lia) Eb Hfl 100) as Hs.
  pose proof (Hs 0 ltac:(lia)) as E0. change (0 + 1) with 1 in E0.
  pose proof (Hs 1 ltac:(lia)) as E1. change (1 + 1) with 2 in E1.
  pose proof (Hs 2 ltac:(lia)) as E2. change (2 + 1) with 3 in E2.
  pose proof (Hs 3 ltac:(lia)) as E3. change (3 + 1) with 4 in E3.
  pose proof (Hs 4 ltac:(lia)) as E4. change (4 + 1) with 5 in E4.
  pose proof (Hs 5 ltac:(lia)) as E5. change (5 + 1) with 6 in E5.
  pose proof (Hs 6 ltac:(lia)) as E6. change (6 + 1) with 7 in E6.
  rewrite B0, B1 in E0. rewrite B1, B2 in E1. rewrite B2, B3 in E2.
  rewrite B3, B4 in E3. rewrite B4, B5 in E4. rewrite B5, B6 in E5.
  rewrite B6, B7 in E6.
  change (range 0 7) with [0; 1; 2; 3; 4; 5; 6]. cbn [mapM].
  rewrite E0, E1, E2, E3, E4, E5, E6. reflexivity.
Qed.

End Splitters.

(** ** Image handles *)

Section Images.
Import PyFloat PyFloatFacts.
Import String.StringSyntax.
Local Open Scope string_scope.

(** C8: on a TFRecord-backed handle [read] raises NotImplementedError, but
    [chunk_image_region], whose body is [pass], returns None for every
    argument instead of raising. *)
Theorem tfrecord_chunk_image_region_returns_none :
  forall (self : TFRecordImage) (w : World) roi chunk_size chunk_overlap oroi,
    chunk_image_region roi chunk_size chunk_overlap (self, w)
    = (Ok None, (self, w)) /\
    read oroi (self, w) = (Raise NotImplementedError, (self, w)).
Proof. intros. split; reflexivity. Qed.

(** *** Caching *)

Lemma tfr_resolved_size self w s b :
  tfr_size self = Some s -> tfr_num_bands self = Some b ->
  size (self, w) = (Ok s, (self, w)).
Proof.
  intros Es Eb. cbn [size TFRecordImage_DeltaImage].
  unfold tfr_size_method, mbind, ret. cbn [fst]. rewrite Es. cbn [fst].
  rewrite Es. reflexivity.
Qed.

Lemma tfr_resolved_bands self w s b :
  tfr_size self = Some s -> tfr_num_bands self = Some b ->
  get_num_bands (self, w) = (Ok b, (self, w)).
Proof.
  intros Es Eb. cbn [get_num_bands TFRecordImage_DeltaImage].
  unfold tfr_get_num_bands, mbind, ret. cbn [fst]. rewrite Eb. cbn [fst].
  rewrite Eb. reflexivity.
Qed.

Lemma mapMM_lift {H A B} (f : A -> result B) (l : list A) (st : H * World) :
  mapMM (fun a => lift (f a)) l st = (mapM f l, st).
Proof.
  induction l as [|a l IH]; [reflexivity|].
  cbn [mapMM mapM]. unfold mbind, lift at 1.
  destruct (f a) as [b|e]; cbn [bind]; [|reflexivity].
  rewrite IH. destruct (mapM f l); reflexivity.
Qed.

Lemma tiles_resolved {H} `{DeltaImage H} (st st1 : H * World) s :
  size st = (Ok s, st1) ->
  tiles st
  = (mapM (fun i => horizontal_split s i (num_regions (fst st1)))
          (range 0 (num_regions (fst st1))), st1).
Proof.
  intros E. unfold tiles, mbind. rewrite E. apply mapMM_lift.
Qed.

Lemma tfr_get_bands_size_resolves self w st1 :
  tfr_get_bands_size (self, w) = (Ok tt, st1) ->
  exists s b, tfr_size (fst st1) = Some s /\ tfr_num_bands (fst st1) = Some b.
Proof.
  unfold tfr_get_bands_size.
  destruct (get_record_info w (tfr_path self) (clock w)) as [[[b wd] ht]|e];
    intros E; [injection E as <- | discriminate].
  eexists; eexists; split; reflexivity.
Qed.

Lemma tfr_first_size_resolves st s st1 :
  tfr_consistent (fst st) ->
  size st = (Ok s, st1) ->
  exists b, tfr_size (fst st1) = Some s /\ tfr_num_bands (fst st1) = Some b.
Proof.
  intros C. cbn [size TFRecordImage_DeltaImage].
  unfold tfr_size_method, mbind.
  destruct (tfr_size (fst st)) as [s0|] eqn:Es.
  - unfold ret. rewrite Es. intros E. injection E as <- <-.
    destruct (tfr_num_bands (fst st)) as [b|] eqn:Eb.
    + exists b. split; [exact Es | reflexivity].
    + apply C in Eb. congruence.
  - destruct st as [self w].
    destruct (tfr_get_bands_size (self, w)) as [[[]|e] st'] eqn:G;
      [|discriminate].
    destruct (tfr_get_bands_size_resolves _ _ _ G) as (s' & b & Es' & Eb').
    rewrite Es'. intros E. injection E as <- <-.
    exists b. split; assumption.
Qed.

Lemma tfr_first_bands_resolves st b st1 :
  tfr_consistent (fst st) ->
  get_num_bands st = (Ok b, st1) ->
  exists s, tfr_size (fst st1) = Some s /\ tfr_num_bands (fst st1) = Some b.
Proof.
  intros C. cbn [get_num_bands TFRecordImage_DeltaImage].
  unfold tfr_get_num_bands, mbind.
  destruct (tfr_num_bands (fst st)) as [b0|] eqn:Eb.
  - unfold ret. rewrite Eb. intros E. injection E as <- <-.
    destruct (tfr_size (fst st)) as [s|] eqn:Es.
    + exists s. split; [reflexivity | exact Eb].
    + apply C in Es. congruence.
  - destruct st as [self w].
    destruct (tfr_get_bands_size (self, w)) as [[[]|e] st'] eqn:G;
      [|discriminate].
    destruct (tfr_get_bands_size_resolves _ _ _ G) as (s' & b' & Es' & Eb').
    rewrite Eb'. intros E. injection E as <- <-.
    exists s'. split; assumption.
Qed.

Lemma tfr_cached_calls self w s b calls :
  tfr_size self = Some s -> tfr_num_bands self = Some b ->
  run_calls calls (self, w)
  = (map (cached_answer s b (tfr_num_regions self)) calls, (self, w)).
Proof.
  intros Es Eb. induction calls as [|c calls IH]; [reflexivity|].
  cbn [run_calls map].
  assert (D : do_call c (self, w)
              = (cached_answer s b (tfr_num_regions self) c, (self, w))).
  { destruct c; unfold do_call, cached_answer.
    - rewrite (tfr_resolved_size self w s b Es Eb). reflexivity.
    - rewrite (tfr_resolved_bands self w s b Es Eb). reflexivity.
    - rewrite (tiles_resolved _ _ s (tfr_resolved_size self w s b Es Eb)).
      reflexivity. }
  rewrite D, IH. reflexivity.
Qed.

(** C9 (as amended): a TFRecord-backed handle caches.  After its first
    successful [size()] or [get_num_bands()], every later [size()],
    [get_num_bands()] and [tiles()] answers from the cache [s], [b] and
    leaves the handle and the world as they are: the backing record is not
    read again, and [tiles()] yields the same rectangles each time. *)
Theorem tfrecord_size_cached (st st1 : TFRecordImage * World) :
  tfr_consistent (fst st) ->
  (exists s, size st = (Ok s, st1)) \/
  (exists b, get_num_bands st = (Ok b, st1)) ->
  exists s b,
    forall calls,
      run_calls calls st1
      = (map (cached_answer s b (tfr_num_regions (fst st1))) calls, st1).
Proof.
  intros C [[s E]|[b E]].
  - destruct (tfr_first_size_resolves st s st1 C E) as (b & Es & Eb).
    exists s, b. intros calls. destruct st1 as [self w].
    apply tfr_cached_calls; assumption.
  - destruct (tfr_first_bands_resolves st b st1 C E) as (s & Es & Eb).
    exists s, b. intros calls. destruct st1 as [self w].
    apply tfr_cached_calls; assumption.
Qed.

Lemma tfr_init_consistent path n : tfr_consistent (TFRecordImage_init path n).
Proof. unfold tfr_consistent. cbn. tauto. Qed.

(** A fresh handle on a record of 3 bands, 10 by 20 pixels. *)
Lemma tfrecord_size_cached_witness :
  let st := (TFRecordImage_init "scene.tfrecord" 2, growing_world) in
  let st1 := (mkTFRecordImage "scene.tfrecord" 2 (Some 3) (Some (10, 20)),
              tick growing_world) in
  (tfr_consistent (fst st) /\
   ((exists s, size st = (Ok s, st1)) \/
    (exists b, get_num_bands st = (Ok b, st1)))) /\
  exists s b,
    forall calls,
      run_calls calls st1
      = (map (cached_answer s b (tfr_num_regions (fst st1))) calls, st1).
Proof.
  intros st st1.
  assert (C : tfr_consistent (fst st)) by apply tfr_init_consistent.
  assert (R : (exists s, size st = (Ok s, st1)) \/
              (exists b, get_num_bands st = (Ok b, st1)))
    by (left; exists (10, 20); reflexivity).
  split; [split; assumption|].
  exact (tfrecord_size_cached st st1 C R).
Defined.

(** C9, as the claim states it, fails on the TIFF-backed handles:
    [TiffImage.size] opens the reader at every call, so a second call reads
    the file again and answers what the file holds by then. *)
Lemma tiff_size_not_cached :
  let self := mkSimpleTiff "scene.tif" 1 in
  size (self, growing_world) = (Ok (10, 20), (self, tick growing_world)) /\
  size (self, tick growing_world)
  = (Ok (11, 20), (self, tick (tick growing_world))) /\
  clock (tick (tick growing_world)) = 2%nat.
Proof. repeat split. Qed.

(** *** The memory estimate *)

Lemma estimate_unfold {H} `{DeltaImage H} (st st1 : H * World) sz
  cs co elem nb :
  size st = (Ok sz, st1) -> 1 <= nb ->
  estimate_memory_usage cs co elem nb st
  = (estimate_arith sz (num_regions (fst st1)) cs co elem nb, st1).
Proof.
  intros E Hnb. unfold estimate_memory_usage.
  destruct (Z.ltb_spec nb 1); [lia|].
  unfold mbind at 1. unfold ret at 1. unfold mbind at 1. rewrite E.
  unfold estimate_arith, mbind, lift.
  destruct (int_truediv _ _); cbn [bind]; [|reflexivity].
  destruct (float_mul_int _ _); cbn [bind]; [|reflexivity].
  destruct (float_div_int _ _); cbn [bind]; [|reflexivity].
  destruct (float_mul_int _ _); cbn [bind]; [|reflexivity].
  destruct (float_mul_int _ _); cbn [bind]; [|reflexivity].
  reflexivity.
Qed.

(** With [num_bands < 1] the estimate asks the handle for its band count,
    before it asks for the size. *)
Lemma estimate_unfold_default {H} `{DeltaImage H} (st st0 st1 : H * World)
  b sz cs co elem nb :
  nb < 1 -> get_num_bands st = (Ok b, st0) -> size st0 = (Ok sz, st1) ->
  estimate_memory_usage cs co elem nb st
  = (estimate_arith sz (num_regions (fst st1)) cs co elem b, st1).
Proof.
  intros Hnb Eb Es. unfold estimate_memory_usage.
  destruct (Z.ltb_spec nb 1); [|lia].
  unfold mbind at 1. rewrite Eb. unfold mbind at 1. rewrite Es.
  unfold estimate_arith, mbind, lift.
  destruct (int_truediv _ _); cbn [bind]; [|reflexivity].
  destruct (float_mul_int _ _); cbn [bind]; [|reflexivity].
  destruct (float_div_int _ _); cbn [bind]; [|reflexivity].
  destruct (float_mul_int _ _); cbn [bind]; [|reflexivity].
  destruct (float_mul_int _ _); cbn [bind]; [|reflexivity].
  reflexivity.
Qed.

Lemma of_int_0 : of_int 0 = Ok (Fin 0).
Proof. rewrite of_int_exact by (simpl; lia). reflexivity. Qed.

(** C10: with [chunk_overlap = chunk_size] the stride is 0 and the
    division [num_pixels / (spacing*spacing)] raises ZeroDivisionError:
    nothing validates the stride.  This holds for every [num_bands]
    argument: with [num_bands >= 1] the size is asked of the handle as it
    is ([st0 = st]); with [num_bands < 1], the default, the handle is first
    asked for its band count, which leaves it in [st0], and the division
    raises before that count is used, whatever it is.  The image dimensions are within the
    range of a float (below [2^1023]), so that the pixel count is computed
    before the division is reached. *)
Theorem estimate_zero_stride {H} `{DeltaImage H} (st st0 st1 : H * World)
  W Hh chunk_size elem_size num_bands :
  (1 <= num_bands /\ st0 = st) \/
  (num_bands < 1 /\ exists b, get_num_bands st = (Ok b, st0)) ->
  size st0 = (Ok (W, Hh), st1) ->
  Z.abs W <= 2 ^ 1023 -> Z.abs Hh <= 2 ^ 1023 ->
  1 <= num_regions (fst st1) ->
  estimate_memory_usage chunk_size chunk_size elem_size num_bands st
  = (Raise ZeroDivisionError, st1).
Proof.
  intros Hnb E HW HH HR.
  assert (A : forall nb,
             estimate_arith (W, Hh) (num_regions (fst st1))
                            chunk_size chunk_size elem_size nb
             = Raise ZeroDivisionError).
  { intros nb. unfold estimate_arith, float_mul_int, float_div_int.
    cbn [fst snd].
    assert (HR' : 0 < num_regions (fst st1)) by lia.
    destruct (int_truediv_ok Hh _ HR' HH) as (kh & ->).
    cbn [bind].
    destruct (of_int_ok W HW) as (kw & ->). cbn [bind].
    rewrite Z.sub_diag. cbn [Z.mul]. rewrite of_int_0. cbn [bind].
    rewrite div_by_zero. reflexivity. }
  destruct Hnb as [[G E0]|[L (b & Eb)]].
  - rewrite E0 in E.
    rewrite (estimate_unfold st st1 (W, Hh)) by assumption.
    rewrite A. reflexivity.
  - rewrite (estimate_unfold_default st st0 st1 b (W, Hh)
               chunk_size chunk_size elem_size num_bands L Eb E).
    rewrite A. reflexivity.
Qed.

(** The default call ([num_bands = 0]) on a TIFF in one region, chunks of
    256 pixels overlapping by 256: the reader is opened for the band count
    and again for the size, 11 by 20 pixels by then. *)
Lemma estimate_zero_stride_witness :
  let st := (mkSimpleTiff "scene.tif" 1, growing_world) in
  let st0 := (mkSimpleTiff "scene.tif" 1, tick growing_world) in
  let st1 := (mkSimpleTiff "scene.tif" 1, tick (tick growing_world)) in
  (((1 <= 0 /\ st0 = st) \/
    (0 < 1 /\ exists b, get_num_bands st = (Ok b, st0))) /\
   size st0 = (Ok (11, 20), st1) /\
   Z.abs 11 <= 2 ^ 1023 /\ Z.abs 20 <= 2 ^ 1023 /\
   1 <= num_regions (fst st1)) /\
  estimate_memory_usage 256 256 32 0 st = (Raise ZeroDivisionError, st1).
Proof.
  intros st st0 st1.
  assert (D : (1 <= 0 /\ st0 = st) \/
              (0 < 1 /\ exists b, get_num_bands st = (Ok b, st0))).
  { right. split; [lia|]. exists 3. reflexivity. }
  assert (B : Z.abs 11 <= 2 ^ 1023 /\ Z.abs 20 <= 2 ^ 1023)
    by (split; apply Z.leb_le; vm_compute; reflexivity).
  destruct B as [B1 B2].
  assert (E : size st0 = (Ok (11, 20), st1)) by reflexivity.
  assert (R : 1 <= num_regions (fst st1)) by (cbn; lia).
  split; [exact (conj D (conj E (conj B1 (conj B2 R))))|].
  exact (estimate_zero_stride st st0 st1 11 20 256 32 0 D E B1 B2 R).
Defined.










Lemma div_pos_divisor x b :
  0 < b ->
  div x (Fin b) = Ok match x with
                     | Fin a => round a b
                     | Inf s => Inf s
                     | NaN => NaN
                     end.
Proof.
  intros Hb. destruct b as [|pb|pb]; try lia.
  destruct x as [a|s|]; unfold div; try reflexivity.
  - rewrite Z.sgn_pos, Z.mul_1_l, Z.abs_eq by lia. reflexivity.
  - destruct s; reflexivity.
Qed.








(** The estimate when no step rounds: [num_regions] divides the height,
    the pixels of a region are [c] squares of the stride, and the result
    is at most [2^53]. *)
Lemma estimate_arith_exact W h R c cs co elem nb :
  1 <= R -> 0 <= h -> 0 <= W -> 0 <= co < cs ->
  h * W = c * ((cs - co) * (cs - co)) -> 1 <= c ->
  1 <= nb -> 1 <= elem ->
  c * (cs * cs) * nb * elem <= 2 ^ 53 ->
  estimate_arith (W, h * R) R cs co elem nb
  = Ok (Fin (c * (cs * cs) * nb * elem * U)).
Proof.
  intros HR Hh0 HW Hco EP Hc Hnb Hel HP.
  pose proof U_pos as HU.
  set (s := cs - co) in *.
  assert (Hs : 1 <= s) by (unfold s; lia).
  assert (Hs2 : 1 <= s * s) by (clear - Hs; nia).
  assert (Hscs : s * s <= cs * cs).
  { apply Z.mul_le_mono_nonneg; unfold s; lia. }
  assert (Hcs2 : 1 <= cs * cs) by lia.
  assert (P1 : cs * cs <= c * (cs * cs)).
  { rewrite <- (Z.mul_1_l (cs * cs)) at 1.
    apply Z.mul_le_mono_nonneg_r; lia. }
  assert (P2 : c * (cs * cs) <= c * (cs * cs) * nb).
  { rewrite <- (Z.mul_1_r (c * (cs * cs))) at 1.
    apply Z.mul_le_mono_nonneg_l; lia. }
  assert (P3 : c * (cs * cs) * nb <= c * (cs * cs) * nb * elem).
  { rewrite <- (Z.mul_1_r (c * (cs * cs) * nb)) at 1.
    apply Z.mul_le_mono_nonneg_l; lia. }
  assert (P0 : c * (s * s) <= c * (cs * cs))
    by (apply Z.mul_le_mono_nonneg_l; lia).
  assert (Pc : c <= c * (cs * cs)).
  { rewrite <- (Z.mul_1_r c) at 1. apply Z.mul_le_mono_nonneg_l; lia. }
  assert (Pnb : nb <= c * (cs * cs) * nb).
  { rewrite <- (Z.mul_1_l nb) at 1. apply Z.mul_le_mono_nonneg_r; lia. }
  assert (Pel : elem <= c * (cs * cs) * nb * elem).
  { rewrite <- (Z.mul_1_l elem) at 1. apply Z.mul_le_mono_nonneg_r; lia. }
  assert (HhW : 1 <= h * W) by lia.
  assert (Hh1 : 1 <= h).
  { destruct (Z.eq_dec h 0) as [Z0|]; [rewrite Z0 in HhW; lia | lia]. }
  assert (HW1 : 1 <= W).
  { destruct (Z.eq_dec W 0) as [Z0|]; [rewrite Z0, Z.mul_0_r in HhW; lia | lia]. }
  assert (Ph : h <= h * W).
  { rewrite <- (Z.mul_1_r h) at 1. apply Z.mul_le_mono_nonneg_l; lia. }
  assert (PW : W <= h * W).
  { rewrite <- (Z.mul_1_l W) at 1. apply Z.mul_le_mono_nonneg_r; lia. }
  unfold estimate_arith, float_mul_int, float_div_int. cbn [fst snd].
  fold s.
  rewrite (int_truediv_exact (h * R) R h) by lia. cbn [bind].
  rewrite (of_int_exact W) by lia. cbn [bind].
  rewrite mul_exact by lia.
  rewrite (of_int_exact (s * s)) by lia. cbn [bind].
  rewrite div_pos_divisor by (apply Z.mul_pos_pos; lia). cbn [bind].
  rewrite (round_exact (h * W * U) (s * s * U) c);
    [| apply Z.mul_pos_pos; lia | rewrite EP; ring | lia].
  rewrite (of_int_exact (cs * cs)) by lia. cbn [bind].
  rewrite mul_exact by lia.
  rewrite (of_int_exact nb) by lia. cbn [bind].
  rewrite mul_exact by lia.
  rewrite (of_int_exact elem) by lia. cbn [bind].
  rewrite mul_exact by lia.
  reflexivity.
Qed.


End Images.

(** ** The chunk filter *)

Section Filter.
Import PyFloat PyFloatFacts.

Lemma in_range a b i : In i (range a b) <-> a <= i < b.
Proof.
  unfold range. rewrite in_map_iff. split.
  - intros (k & <- & Hk). apply in_seq in Hk. lia.
  - intros Hi. exists (Z.to_nat (i - a)). split; [lia|].
    apply in_seq. lia.
Qed.

Lemma range_nil a b : b <= a -> range a b = [].
Proof.
  intros H. unfold range. replace (Z.to_nat (b - a)) with 0%nat by lia.
  reflexivity.
Qed.

Lemma range_snoc a b : a <= b -> range a (b + 1) = range a b ++ [b].
Proof.
  intros H. unfold range.
  replace (Z.to_nat (b + 1 - a)) with (S (Z.to_nat (b - a))) by lia.
  rewrite seq_S, map_app. cbn [map]. f_equal. f_equal. lia.
Qed.

Lemma range_of_nat n : range 0 (Z.of_nat n) = map Z.of_nat (seq 0 n).
Proof.
  unfold range. rewrite Z.sub_0_r, Nat2Z.id. apply map_ext. intros; lia.
Qed.

Lemma mapM_ok {A B} (f : A -> result B) (g : A -> B) l :
  (forall a, In a l -> f a = Ok (g a)) -> mapM f l = Ok (map g l).
Proof.
  induction l as [|a l IH]; intros Hf; [reflexivity|].
  cbn [mapM map]. rewrite Hf by (left; reflexivity). cbn [bind].
  rewrite IH by (intros; apply Hf; right; assumption). reflexivity.
Qed.


(** *** The worker ranges *)


Lemma last_stop_map (g : Z -> Z) T :
  1 <= T -> last_stop (map (fun i => (g i, g (i + 1))) (range 0 T)) = g T.
Proof.
  intros HT. unfold last_stop.
  replace T with ((T - 1) + 1) at 1 by lia.
  rewrite range_snoc by lia. rewrite map_app. cbn [map].
  rewrite last_last. cbn [snd]. f_equal. lia.
Qed.

(** Every index between the first start and the last stop is in one of the
    consecutive ranges. *)
Lemma covered (g : Z -> Z) (n : nat) j :
  g 0 <= j < g (Z.of_nat n) ->
  exists i, 0 <= i < Z.of_nat n /\ g i <= j < g (i + 1).
Proof.
  induction n as [|n IH]; intros Hj; [simpl in Hj; lia|].
  rewrite Nat2Z.inj_succ in *. unfold Z.succ in *.
  destruct (Z.lt_ge_cases j (g (Z.of_nat n))) as [C|C].
  - destruct (IH ltac:(lia)) as (i & Hi & Bi). exists i. split; lia.
  - exists (Z.of_nat n). split; lia.
Qed.

(** *** The flags *)

Lemma clear_flag_nth fl i j :
  nth j (clear_flag fl i) false = nth j fl false && negb (Nat.eqb i j).
Proof.
  revert i j. induction fl as [|f fl IH]; intros i j.
  - destruct i, j; reflexivity.
  - destruct i as [|i]; destruct j as [|j]; cbn [clear_flag nth Nat.eqb negb].
    + rewrite andb_false_r. reflexivity.
    + rewrite andb_true_r. reflexivity.
    + rewrite andb_true_r. reflexivity.
    + apply IH.
Qed.

Lemma clear_flag_length fl i : length (clear_flag fl i) = length fl.
Proof.
  revert i. induction fl as [|f fl IH]; intros [|i]; cbn [clear_flag length];
    try reflexivity. rewrite IH. reflexivity.
Qed.

Lemma clear_flag_comm fl i j :
  clear_flag (clear_flag fl i) j = clear_flag (clear_flag fl j) i.
Proof.
  revert i j. induction fl as [|f fl IH]; intros i j.
  - destruct i, j; reflexivity.
  - destruct i, j; cbn [clear_flag]; try reflexivity. rewrite IH. reflexivity.
Qed.

(** X19: the flags do not depend on the order in which the workers write
    them. *)
Lemma apply_writes_perm flags ws ws' :
  Permutation ws ws' -> apply_writes flags ws = apply_writes flags ws'.
Proof.
  intros P. revert flags. unfold apply_writes.
  induction P as [|x l l' P IH|x y l|l l' l'' P1 IH1 P2 IH2]; intros flags;
    cbn [fold_left].
  - reflexivity.
  - apply IH.
  - rewrite clear_flag_comm. reflexivity.
  - rewrite IH1. apply IH2.
Qed.

Lemma apply_writes_nth flags ws j :
  nth j (apply_writes flags ws) false
  = nth j flags false && negb (existsb (fun i => Nat.eqb (Z.to_nat i) j) ws).
Proof.
  revert flags. unfold apply_writes.
  induction ws as [|x ws IH]; intros flags; cbn [fold_left existsb].
  - rewrite andb_true_r. reflexivity.
  - rewrite IH, clear_flag_nth, negb_orb, andb_assoc. reflexivity.
Qed.

Lemma nth_repeat_true n j : (j < n)%nat -> nth j (repeat true n) false = true.
Proof.
  revert j. induction n as [|n IH]; intros j Hj; [lia|].
  destruct j; cbn [repeat nth]; [reflexivity | apply IH; lia].
Qed.

(** *** Selecting by index *)

Lemma filter_by_index_nat {A} (p : A -> bool) (d : A) (l : list A) start :
  map (fun i => nth (i - start) l d)
      (filter (fun i => p (nth (i - start) l d)) (seq start (length l)))
  = filter p l.
Proof.
  revert start. induction l as [|a l IH]; intros start; [reflexivity|].
  cbn [length seq filter]. rewrite Nat.sub_diag. cbn [nth].
  assert (E : forall (q : A -> bool),
             filter (fun i => q (nth (i - start) (a :: l) d)) (seq (S start) (length l))
             = filter (fun i => q (nth (i - S start) l d)) (seq (S start) (length l))).
  { intros q. apply filter_ext_in. intros i Hi. apply in_seq in Hi.
    replace (i - start)%nat with (S (i - S start)) by lia. reflexivity. }
  destruct (p a).
  - cbn [map]. rewrite Nat.sub_diag. cbn [nth]. f_equal.
    rewrite E, <- (IH (S start)). apply map_ext_in.
    intros i Hi. apply filter_In in Hi. destruct Hi as [Hi _].
    apply in_seq in Hi.
    replace (i - start)%nat with (S (i - S start)) by lia. reflexivity.
  - rewrite E, <- (IH (S start)). apply map_ext_in.
    intros i Hi. apply filter_In in Hi. destruct Hi as [Hi _].
    apply in_seq in Hi.
    replace (i - start)%nat with (S (i - S start)) by lia. reflexivity.
Qed.

Lemma filter_map_swap {A B} (f : A -> B) (p : B -> bool) l :
  filter p (map f l) = map f (filter (fun a => p (f a)) l).
Proof.
  induction l as [|a l IH]; [reflexivity|]. cbn [map filter].
  destruct (p (f a)); cbn [map]; rewrite IH; reflexivity.
Qed.

Lemma filter_by_index {A} (p : A -> bool) (d : A) (l : list A) :
  map (fun i => nth (Z.to_nat i) l d)
      (filter (fun i => p (nth (Z.to_nat i) l d)) (range 0 (len l)))
  = filter p l.
Proof.
  unfold len. rewrite range_of_nat, filter_map_swap, map_map.
  rewrite <- (filter_by_index_nat p d l 0).
  rewrite (map_ext (fun x => nth (Z.to_nat (Z.of_nat x)) l d)
                   (fun i => nth (i - 0) l d))
    by (intros i; rewrite Nat2Z.id, Nat.sub_0_r; reflexivity).
  f_equal. apply filter_ext. intros i. rewrite Nat2Z.id, Nat.sub_0_r.
  reflexivity.
Qed.

Lemma index_nth {A} (l : list A) (d : A) i :
  0 <= i < len l -> index l i = Ok (nth (Z.to_nat i) l d).
Proof.
  intros Hi. unfold index. destruct (Z.ltb_spec i 0); [lia|].
  destruct (nth_error l (Z.to_nat i)) as [a|] eqn:E.
  - rewrite (nth_error_nth _ _ d E). reflexivity.
  - apply nth_error_None in E. unfold len in Hi. lia.
Qed.

(** *** The test of a chunk *)

Lemma filter_length_forallb {A} (p : A -> bool) l :
  Nat.eqb (length (filter p l)) (length l) = forallb p l.
Proof.
  induction l as [|a l IH]; [reflexivity|]. cbn [filter forallb length].
  destruct (p a); cbn [length andb]; [exact IH|].
  apply Nat.eqb_neq. pose proof (filter_length_le p l). lia.
Qed.

Lemma concat_length_rect (band : chunk2d) w h :
  len band = w -> Forall (fun row => len row = h) band ->
  len (concat band) = w * h.
Proof.
  unfold len. revert w. induction band as [|row band IH]; intros w Hw Hr.
  - cbn in *. lia.
  - cbn [concat length] in *. rewrite length_app.
    inversion Hr as [|? ? Hrow Hrest]; subst.
    specialize (IH (Z.of_nat (length band)) eq_refl Hrest). lia.
Qed.

Lemma count_nonzero_spec (band : chunk2d) w h :
  len band = w -> Forall (fun row => len row = h) band ->
  (count_nonzero band =? w * h) = band_has_no_zero band.
Proof.
  intros Hw Hr. unfold count_nonzero, band_has_no_zero.
  rewrite <- (concat_length_rect band w h Hw Hr).
  rewrite <- filter_length_forallb. unfold len.
  destruct (Nat.eqb_spec (length (filter (fun p => negb (p =? 0)) (concat band)))
                         (length (concat band))) as [E|E].
  - rewrite E. apply Z.eqb_refl.
  - apply Z.eqb_neq. lia.
Qed.

Lemma concat_singletons {A} (p : A -> bool) l :
  concat (map (fun i => if p i then [i] else []) l) = filter p l.
Proof.
  induction l as [|a l IH]; [reflexivity|]. cbn [map concat filter].
  rewrite IH. destruct (p a); reflexivity.
Qed.

Lemma check_chunks_ok data K B w h s e :
  arr_class data = ShapeMethod -> arr_dims data = (K, B, w, h) ->
  wf_array data -> 1 <= B -> 0 <= s -> e <= K ->
  check_chunks data (w * h) (s, e)
  = Ok (filter (fun i => negb (chunk_valid (nth (Z.to_nat i) (arr_chunks data) [])))
               (range s e)).
Proof.
  intros Hc Hd Hwf HB Hs He. unfold check_chunks.
  unfold wf_array in Hwf. rewrite Hd in Hwf. destruct Hwf as [HK Hall].
  rewrite (mapM_ok _ (fun i =>
             if negb (chunk_valid (nth (Z.to_nat i) (arr_chunks data) []))
             then [i] else [])).
  - cbn [bind]. rewrite concat_singletons. reflexivity.
  - intros i Hi. apply in_range in Hi.
    rewrite (index_nth (arr_chunks data) [] i) by lia. cbn [bind].
    set (c := nth (Z.to_nat i) (arr_chunks data) []).
    assert (Wc : wf_chunk B w h c).
    { rewrite Forall_forall in Hall. apply Hall. apply nth_In.
      unfold len in HK. lia. }
    destruct Wc as [Lc Fc].
    destruct c as [|band rest]; [unfold len in Lc; cbn in Lc; lia|].
    unfold index at 1. cbn [Z.ltb Z.compare Z.to_nat nth_error bind].
    rewrite Hc. cbn [call_shape bind].
    inversion Fc as [|? ? [Hw Hr] _]; subst.
    rewrite (count_nonzero_spec band (len band) h eq_refl Hr).
    reflexivity.
Qed.

(** When the thread count divides the number of chunks no boundary is
    rounded. *)
Lemma thread_splits_exact K T c :
  1 <= T <= 2 ^ 53 -> 0 <= c -> K = c * T -> K <= 2 ^ 53 ->
  thread_splits K T = Ok (map (fun i => (i * c, (i + 1) * c)) (range 0 T)).
Proof.
  intros HT Hc HK H53. pose proof U_pos as HU.
  assert (HK0 : 0 <= K) by nia.
  unfold thread_splits.
  rewrite (of_int_exact K), (of_int_exact T) by lia. cbn [bind].
  rewrite div_pos_divisor by nia. cbn [bind].
  rewrite (round_exact (K * U) (T * U) c); [| nia | subst K; ring | lia].
  apply mapM_ok. intros i Hi. apply in_range in Hi.
  assert (Hic : 0 <= i * c <= K) by nia.
  assert (Hic' : 0 <= (i + 1) * c <= K) by nia.
  unfold int_mul_float.
  rewrite !of_int_exact by lia. cbn [bind].
  rewrite !mul_exact by lia. rewrite !floor_exact. reflexivity.
Qed.

(** The worker ranges from the thread size [Fin kb] and the floors [b] of
    its products: they are those of the bands of [horizontal_split]. *)
Lemma thread_splits_of_core K T kb (b : Z -> Z) :
  0 <= K <= 2 ^ 53 -> 1 <= T <= 2 ^ 53 ->
  int_truediv K T = Ok (Fin kb) ->
  (forall t, 0 <= t <= T -> floor (mul (Fin kb) (Fin (t * U))) = Ok (b t)) ->
  thread_splits K T = Ok (map (fun i => (b i, b (i + 1))) (range 0 T)).
Proof.
  intros HK HT Eb Hfl. pose proof U_pos as HU.
  assert (Rb : round K T = Fin kb).
  { revert Eb. unfold int_truediv. destruct (Z.eqb_spec T 0); [lia|].
    rewrite Z.sgn_pos, Z.mul_1_l, Z.abs_eq by lia.
    destruct (round K T); [|discriminate|]; intros E; apply Ok_inj in E;
      exact E. }
  unfold thread_splits.
  rewrite (of_int_exact K), (of_int_exact T) by lia. cbn [bind].
  rewrite div_pos_divisor by (apply Z.mul_pos_pos; lia). cbn [bind].
  rewrite round_scale, Rb by lia.
  apply mapM_ok. intros i Hi. apply in_range in Hi.
  unfold int_mul_float.
  rewrite !of_int_exact by lia. cbn [bind].
  rewrite (mul_comm (Fin (i * U))), (Hfl i) by lia. cbn [bind].
  rewrite (mul_comm (Fin ((i + 1) * U))), (Hfl (i + 1)) by lia.
  reflexivity.
Qed.





(** X20: when the thread count divides the number of chunks the worker
    ranges are the exact ones, and they reach the last chunk. *)
Lemma thread_splits_divisible K T c :
  1 <= T <= 2 ^ 53 -> 0 <= c -> K = c * T -> K <= 2 ^ 53 ->
  thread_splits K T = Ok (map (fun i => (i * c, (i + 1) * c)) (range 0 T)) /\
  last_stop (map (fun i => (i * c, (i + 1) * c)) (range 0 T)) = K.
Proof.
  intros HT Hc HK H53. split.
  - apply thread_splits_exact; assumption.
  - rewrite (last_stop_map (fun i => i * c)) by lia. lia.
Qed.

(** X21: on a [numpy.ndarray], whose [shape] is not callable, the filter
    stops at its first line. *)
Lemma parallel_filter_chunks_numpy data T :
  arr_class data = NumpyArray -> parallel_filter_chunks data T = Raise TypeError.
Proof. intros Hc. unfold parallel_filter_chunks. rewrite Hc. reflexivity. Qed.


End Filter.

(** ** The float model against the Standard Library *)

Section Validation.
Import PyFloat.

(** The operations agree with [SpecFloat] on an int that is not a float
    ([2^53 + 1]) and 7. *)
Example model_agrees_with_spec :
  agrees_with_spec 9007199254740993 7 = true.
Proof. vm_compute. reflexivity. Qed.

(** [61 / 7 * 7] is [60.99999999999999] here, in [SpecFloat] and in the
    machine's binary64 arithmetic. *)
Example product_61_7 :
  (h <- int_truediv 61 7 ;; p <- float_mul_int h 7 ;; Ok (to_spec p))
  = Ok (S754_finite false 8584986789675007 (-47)) /\
  SFmul 53 1024 (SFdiv 53 1024 (spec_of_int 61) (spec_of_int 7)) (spec_of_int 7)
  = S754_finite false 8584986789675007 (-47) /\
  Prim2SF (61 / 7 * 7)%float = S754_finite false 8584986789675007 (-47).
Proof. split; [|split]; vm_compute; reflexivity. Qed.

End Validation.

(** ** Further properties of the region splitters *)

Section MoreSplitters.
Import PyFloat PyFloatFacts.

(** X1: a band stays inside the image, has a non-negative height, and each
    of its two boundaries is the exact [floor (H * t / N)] or one row
    less: the rounded products are never too large. *)
Theorem horizontal_split_within_image W H N r :
  0 <= H -> 1 <= N <= 2 ^ 51 -> H * N <= 2 ^ 51 -> 0 <= r < N ->
  exists rect,
    horizontal_split (W, H) r N = Ok rect /\
    min_x rect = 0 /\ max_x rect = W /\
    0 <= min_y rect <= max_y rect /\ max_y rect <= H /\
    H * r / N - 1 <= min_y rect <= H * r / N /\
    H * (r + 1) / N - 1 <= max_y rect <= H * (r + 1) / N.
Proof.
  intros HH HN Hb Hr.
  destruct (band_boundaries H N HH HN Hb) as (b & Hs & B0 & Bm & Bq & _).
  exists (mkRectangle 0 (b r) W (b (r + 1))).
  cbn [min_x min_y max_x max_y].
  split; [apply Hs; exact Hr|]. split; [reflexivity|]. split; [reflexivity|].
  pose proof (Bm 0 r ltac:(lia) ltac:(lia)) as M0.
  pose proof (Bm r (r + 1) ltac:(lia) ltac:(lia)) as M1.
  pose proof (Bq r ltac:(lia)) as Q0.
  pose proof (Bq (r + 1) ltac:(lia)) as Q1.
  pose proof (quotient_le H N (r + 1) HH ltac:(lia) ltac:(lia)).
  repeat split; lia.
Qed.

(** Band 3 of a 1920 by 1080 image cut in 7. *)
Lemma horizontal_split_within_image_witness :
  (0 <= 1080 /\ 1 <= 7 <= 2 ^ 51 /\ 1080 * 7 <= 2 ^ 51 /\ 0 <= 3 < 7) /\
  exists rect,
    horizontal_split (1920, 1080) 3 7 = Ok rect /\
    min_x rect = 0 /\ max_x rect = 1920 /\
    0 <= min_y rect <= max_y rect /\ max_y rect <= 1080 /\
    1080 * 3 / 7 - 1 <= min_y rect <= 1080 * 3 / 7 /\
    1080 * (3 + 1) / 7 - 1 <= max_y rect <= 1080 * (3 + 1) / 7.
Proof.
  split; [lia|].
  apply (horizontal_split_within_image 1920 1080 7 3); lia.
Defined.

(** X2: with [num_splits = 0] a splitter never returns: the assertion
    fails for a region index of 0 or more, and the division by
    [num_splits] raises ZeroDivisionError for a negative one. *)
Theorem split_in_zero size region :
  horizontal_split size region 0
  = Raise (if region <? 0 then ZeroDivisionError else AssertionError) /\
  tile_split size region 0
  = Raise (if region <? 0 then ZeroDivisionError else AssertionError).
Proof.
  unfold horizontal_split, tile_split. cbn [Z.mul].
  destruct (region <? 0); split; reflexivity.
Qed.

(** X3: every tile has the same size, [floor (W / N)] by [floor (H / N)],
    and lies in the top-left [N * floor (W / N)] by [N * floor (H / N)]
    pixels of the image: the last [W mod N] columns and the last
    [H mod N] rows are in no tile. *)
Theorem tile_split_inside W H N region :
  0 <= W < 2 ^ 53 -> 0 <= H < 2 ^ 53 -> 1 <= N ->
  0 <= region < N * N -> region < 2 ^ 53 ->
  exists rect,
    tile_split (W, H) region N = Ok rect /\
    max_x rect - min_x rect = W / N /\ max_y rect - min_y rect = H / N /\
    0 <= min_x rect /\ max_x rect <= W - W mod N /\
    0 <= min_y rect /\ max_y rect <= H - H mod N.
Proof.
  intros HW HH HN Hr Hr53.
  eexists. split; [apply tile_split_cell; assumption|].
  cbn [min_x min_y max_x max_y].
  pose proof (Z.mod_pos_bound region N ltac:(lia)) as Bc.
  pose proof (Z.div_mod W N ltac:(lia)) as Dw.
  pose proof (Z.div_mod H N ltac:(lia)) as Dh.
  assert (Row0 : 0 <= region / N) by (apply Z.div_pos; lia).
  assert (Row : region / N < N) by (apply Z.div_lt_upper_bound; lia).
  assert (Tw0 : 0 <= W / N) by (apply Z.div_pos; lia).
  assert (Th0 : 0 <= H / N) by (apply Z.div_pos; lia).
  set (row := region / N) in *. set (col := region mod N) in *.
  set (tw := W / N) in *. set (th := H / N) in *.
  assert (tw * (col + 1) <= tw * N) by (apply Z.mul_le_mono_nonneg_l; lia).
  assert (th * (row + 1) <= th * N) by (apply Z.mul_le_mono_nonneg_l; lia).
  assert (0 <= tw * col) by (apply Z.mul_nonneg_nonneg; lia).
  assert (0 <= th * row) by (apply Z.mul_nonneg_nonneg; lia).
  repeat split; lia.
Qed.

(** A 10 by 10 image in a 3 by 3 grid: the tiles are 3 by 3 pixels and
    column 9 and row 9 are left out. *)
Lemma tile_split_inside_witness :
  (0 <= 10 < 2 ^ 53 /\ 0 <= 10 < 2 ^ 53 /\ 1 <= 3 /\
   0 <= 8 < 3 * 3 /\ 8 < 2 ^ 53) /\
  exists rect,
    tile_split (10, 10) 8 3 = Ok rect /\
    max_x rect - min_x rect = 10 / 3 /\ max_y rect - min_y rect = 10 / 3 /\
    0 <= min_x rect /\ max_x rect <= 10 - 10 mod 3 /\
    0 <= min_y rect /\ max_y rect <= 10 - 10 mod 3.
Proof.
  split; [lia|].
  apply (tile_split_inside 10 10 3 8); lia.
Defined.

Lemma cell_unique t c x : 0 < t -> t * c <= x < t * (c + 1) -> c = x / t.
Proof.
  intros Ht B. apply Z.div_unique with (r := x - t * c); lia.
Qed.

(** X4: the tiles partition the part of the image they reach: a pixel of
    the top-left [N * floor (W / N)] by [N * floor (H / N)] pixels is in
    the tile of exactly one region. *)
Theorem tile_split_partition W H N x y :
  0 <= W < 2 ^ 53 -> 0 <= H < 2 ^ 53 -> 1 <= N -> N * N <= 2 ^ 53 ->
  0 <= x < W - W mod N -> 0 <= y < H - H mod N ->
  exists region rect,
    0 <= region < N * N /\
    tile_split (W, H) region N = Ok rect /\ covers rect x y /\
    forall region' rect',
      0 <= region' < N * N ->
      tile_split (W, H) region' N = Ok rect' -> covers rect' x y ->
      region' = region.
Proof.
  intros HW HH HN HNN Hx Hy.
  pose proof (Z.div_mod W N ltac:(lia)) as Dw.
  pose proof (Z.div_mod H N ltac:(lia)) as Dh.
  assert (Tw0 : 0 <= W / N) by (apply Z.div_pos; lia).
  assert (Th0 : 0 <= H / N) by (apply Z.div_pos; lia).
  set (tw := W / N) in *. set (th := H / N) in *.
  assert (Tw : 0 < tw).
  { destruct (Z.eq_dec tw 0) as [E|]; [rewrite E, Z.mul_0_r in Dw|]; lia. }
  assert (Th : 0 < th).
  { destruct (Z.eq_dec th 0) as [E|]; [rewrite E, Z.mul_0_r in Dh|]; lia. }
  set (col := x / tw). set (row := y / th).
  pose proof (Z.div_mod x tw ltac:(lia)) as Dx. fold col in Dx.
  pose proof (Z.mod_pos_bound x tw Tw) as Mx.
  pose proof (Z.div_mod y th ltac:(lia)) as Dy. fold row in Dy.
  pose proof (Z.mod_pos_bound y th Th) as My.
  assert (C0 : 0 <= col) by (apply Z.div_pos; lia).
  assert (R0 : 0 <= row) by (apply Z.div_pos; lia).
  assert (C1 : col < N) by (apply Z.div_lt_upper_bound; lia).
  assert (R1 : row < N) by (apply Z.div_lt_upper_bound; lia).
  assert (Hreg : 0 <= row * N + col < N * N) by (clear - C0 C1 R0 R1 HN; nia).
  assert (Ediv : (row * N + col) / N = row).
  { rewrite Z.div_add_l by lia. rewrite Z.div_small by lia. lia. }
  assert (Emod : (row * N + col) mod N = col).
  { rewrite Z.add_comm, Z.mod_add by lia. apply Z.mod_small. lia. }
  exists (row * N + col). eexists.
  split; [exact Hreg|].
  split; [apply tile_split_cell; try assumption; lia|].
  split.
  - unfold covers. cbn [min_x min_y max_x max_y]. rewrite Ediv, Emod.
    fold tw th. lia.
  - intros region' rect' Hr' E' [Cx Cy].
    rewrite tile_split_cell in E' by (try assumption; lia).
    apply Ok_inj in E'. subst rect'. cbn [min_x min_y max_x max_y] in Cx, Cy.
    fold tw th in Cx, Cy.
    pose proof (cell_unique tw _ x Tw Cx) as Ec.
    pose proof (cell_unique th _ y Th Cy) as Er.
    fold col in Ec. fold row in Er.
    pose proof (Z.div_mod region' N ltac:(lia)) as D'.
    rewrite Ec, Er in D'. lia.
Qed.

(** Pixel (7, 4) of a 10 by 10 image in a 3 by 3 grid. *)
Lemma tile_split_partition_witness :
  (0 <= 10 < 2 ^ 53 /\ 0 <= 10 < 2 ^ 53 /\ 1 <= 3 /\ 3 * 3 <= 2 ^ 53 /\
   0 <= 7 < 10 - 10 mod 3 /\ 0 <= 4 < 10 - 10 mod 3) /\
  exists region rect,
    0 <= region < 3 * 3 /\
    tile_split (10, 10) region 3 = Ok rect /\ covers rect 7 4 /\
    forall region' rect',
      0 <= region' < 3 * 3 ->
      tile_split (10, 10) region' 3 = Ok rect' -> covers rect' 7 4 ->
      region' = region.
Proof.
  assert (M : 10 mod 3 = 1) by reflexivity.
  split; [rewrite M; lia|].
  apply (tile_split_partition 10 10 3 7 4); rewrite ?M; lia.
Defined.

End MoreSplitters.

(** ** Further properties of the image handles *)

Section MoreImages.
Import PyFloat PyFloatFacts.
Import String.StringSyntax.
Local Open Scope string_scope.

Lemma nth_range n k : (k < n)%nat -> nth k (range 0 (Z.of_nat n)) 0 = Z.of_nat k.
Proof.
  intros Hk. rewrite range_of_nat.
  change 0 with (Z.of_nat 0) at 1. rewrite map_nth, seq_nth by exact Hk.
  reflexivity.
Qed.

Lemma len_map_range {A} (f : Z -> A) n : 0 <= n -> len (map f (range 0 n)) = n.
Proof.
  intros Hn. unfold len, range. rewrite !length_map, length_seq. lia.
Qed.

Lemma index_map_range {A} (f : Z -> A) n i :
  0 <= i < n -> index (map f (range 0 n)) i = Ok (f i).
Proof.
  intros Hi. rewrite (index_nth _ (f 0)) by (rewrite len_map_range; lia).
  rewrite map_nth. f_equal. f_equal.
  rewrite <- (Z2Nat.id n) by lia. rewrite nth_range by lia. lia.
Qed.

Lemma index_inv {A} (l : list A) i a : index l i = Ok a -> 0 <= i < len l.
Proof.
  unfold index. destruct (Z.ltb_spec i 0); [discriminate|].
  destruct (nth_error l (Z.to_nat i)) eqn:E; [|discriminate].
  intros _. assert (Hn : nth_error l (Z.to_nat i) <> None) by congruence.
  apply nth_error_Some in Hn. unfold len. lia.
Qed.

(** The regions [tiles()] yields, by their boundaries. *)
Lemma tiles_shape {H} `{DeltaImage H} (st st1 : H * World) W Hh :
  size st = (Ok (W, Hh), st1) ->
  0 <= Hh -> 1 <= num_regions (fst st1) <= 2 ^ 51 ->
  Hh * num_regions (fst st1) <= 2 ^ 51 ->
  exists b : Z -> Z,
    tiles st = (Ok (map (fun i => mkRectangle 0 (b i) W (b (i + 1)))
                        (range 0 (num_regions (fst st1)))), st1) /\
    b 0 = 0 /\
    (forall i j, 0 <= i <= j -> j <= num_regions (fst st1) -> b i <= b j) /\
    Hh - 1 <= b (num_regions (fst st1)) <= Hh /\
    ((num_regions (fst st1) | Hh) -> b (num_regions (fst st1)) = Hh).
Proof.
  intros E HH Hn Hb. set (n := num_regions (fst st1)) in *.
  destruct (band_boundaries Hh n HH Hn Hb) as (b & Hs & B0 & Bm & Bq & Bx).
  exists b. rewrite (tiles_resolved st st1 (W, Hh) E). fold n.
  split; [|split; [exact B0|split; [exact Bm|split]]].
  - f_equal. apply mapM_ok. intros i Hi. apply in_range in Hi.
    apply Hs. exact Hi.
  - pose proof (Bq n ltac:(lia)) as Q. rewrite whole_quotient in Q by lia.
    exact Q.
  - intros D. rewrite (Bx n) by (try lia; left; exact D).
    apply whole_quotient. lia.
Qed.

(** X5: [tiles()] yields [num_regions] bands of the full width, each of a
    non-negative height and inside the image, the first one starting on
    row 0 and each one on the row where the one before stops; the last one
    stops on the last row or one row before it, and on the last row when
    [num_regions] divides the height. *)
Theorem tiles_contiguous_bands {H} `{DeltaImage H} (st st1 : H * World) W Hh :
  size st = (Ok (W, Hh), st1) ->
  0 <= Hh -> 1 <= num_regions (fst st1) <= 2 ^ 51 ->
  Hh * num_regions (fst st1) <= 2 ^ 51 ->
  exists rois,
    tiles st = (Ok rois, st1) /\ len rois = num_regions (fst st1) /\
    forall i r,
      index rois i = Ok r ->
      min_x r = 0 /\ max_x r = W /\
      0 <= min_y r <= max_y r /\ max_y r <= Hh /\
      (i = 0 -> min_y r = 0) /\
      (i = num_regions (fst st1) - 1 ->
       Hh - 1 <= max_y r /\ ((num_regions (fst st1) | Hh) -> max_y r = Hh)) /\
      (forall r', index rois (i + 1) = Ok r' -> min_y r' = max_y r).
Proof.
  intros E HH Hn Hb.
  destruct (tiles_shape st st1 W Hh E HH Hn Hb) as (b & Et & B0 & Bm & Bl & Bx).
  set (n := num_regions (fst st1)) in *.
  eexists. split; [exact Et|]. split; [apply len_map_range; lia|].
  intros i r Ei. pose proof (index_inv _ _ _ Ei) as Hi.
  rewrite len_map_range in Hi by lia.
  rewrite index_map_range in Ei by exact Hi. apply Ok_inj in Ei. subst r.
  cbn [min_x min_y max_x max_y].
  pose proof (Bm 0 i ltac:(lia) ltac:(lia)) as M0.
  pose proof (Bm i (i + 1) ltac:(lia) ltac:(lia)) as M1.
  pose proof (Bm (i + 1) n ltac:(lia) ltac:(lia)) as M2.
  split; [reflexivity|]. split; [reflexivity|].
  split; [lia|]. split; [lia|]. split; [intros ->; exact B0|]. split.
  - intros ->. replace (n - 1 + 1) with n by lia. split; [lia | exact Bx].
  - intros r' Er'. pose proof (index_inv _ _ _ Er') as Hi'.
    rewrite len_map_range in Hi' by lia.
    rewrite index_map_range in Er' by exact Hi'. apply Ok_inj in Er'.
    subst r'. reflexivity.
Qed.

(** A TIFF of 10 by 20 pixels in 4 regions. *)
Lemma tiles_contiguous_bands_witness :
  let st := (mkSimpleTiff "scene.tif" 4, growing_world) in
  let st1 := (mkSimpleTiff "scene.tif" 4, tick growing_world) in
  (size st = (Ok (10, 20), st1) /\ 0 <= 20 /\
   1 <= num_regions (fst st1) <= 2 ^ 51 /\
   20 * num_regions (fst st1) <= 2 ^ 51) /\
  exists rois,
    tiles st = (Ok rois, st1) /\ len rois = num_regions (fst st1) /\
    forall i r,
      index rois i = Ok r ->
      min_x r = 0 /\ max_x r = 10 /\
      0 <= min_y r <= max_y r /\ max_y r <= 20 /\
      (i = 0 -> min_y r = 0) /\
      (i = num_regions (fst st1) - 1 ->
       20 - 1 <= max_y r /\ ((num_regions (fst st1) | 20) -> max_y r = 20)) /\
      (forall r', index rois (i + 1) = Ok r' -> min_y r' = max_y r).
Proof.
  intros st st1.
  assert (E : size st = (Ok (10, 20), st1)) by reflexivity.
  assert (H0 : 0 <= 20) by lia.
  assert (H1 : 1 <= num_regions (fst st1) <= 2 ^ 51) by (cbn; lia).
  assert (H2 : 20 * num_regions (fst st1) <= 2 ^ 51) by (cbn; lia).
  split; [exact (conj E (conj H0 (conj H1 H2)))|].
  exact (tiles_contiguous_bands st st1 10 20 E H0 H1 H2).
Defined.

(** X6: the regions of [tiles()] partition the image, its last row apart:
    every pixel above the last row is in exactly one region, and so is
    every pixel of the last row when [num_regions] divides the height. *)
Theorem tiles_partition {H} `{DeltaImage H} (st st1 : H * World) W Hh x y :
  size st = (Ok (W, Hh), st1) ->
  0 <= Hh -> 1 <= num_regions (fst st1) <= 2 ^ 51 ->
  Hh * num_regions (fst st1) <= 2 ^ 51 ->
  0 <= x < W -> 0 <= y < Hh ->
  y < Hh - 1 \/ (num_regions (fst st1) | Hh) ->
  exists rois i r,
    tiles st = (Ok rois, st1) /\ index rois i = Ok r /\ covers r x y /\
    forall j r', index rois j = Ok r' -> covers r' x y -> j = i.
Proof.
  intros E HH Hn Hb Hx Hy Hlast.
  destruct (tiles_shape st st1 W Hh E HH Hn Hb) as (b & Et & B0 & Bm & Bl & Bx).
  set (n := num_regions (fst st1)) in *.
  assert (Hyn : b 0 <= y < b (Z.of_nat (Z.to_nat n))).
  { rewrite Z2Nat.id by lia. destruct Hlast as [L|D]; [lia|].
    rewrite (Bx D). lia. }
  destruct (covered b (Z.to_nat n) y Hyn) as (i & Hi & Bi).
  rewrite Z2Nat.id in Hi by lia.
  exists (map (fun i => mkRectangle 0 (b i) W (b (i + 1))) (range 0 n)),
    i, (mkRectangle 0 (b i) W (b (i + 1))).
  split; [exact Et|].
  split; [exact (index_map_range
                   (fun i => mkRectangle 0 (b i) W (b (i + 1))) n i Hi)|].
  split; [unfold covers; cbn [min_x min_y max_x max_y]; lia|].
  intros j r' Ej [_ Cy]. pose proof (index_inv _ _ _ Ej) as Hj.
  rewrite len_map_range in Hj by lia.
  rewrite index_map_range in Ej by exact Hj. apply Ok_inj in Ej. subst r'.
  cbn [min_y max_y] in Cy.
  destruct (Z.lt_trichotomy j i) as [L|[L|L]]; [|exact L|].
  - pose proof (Bm (j + 1) i ltac:(lia) ltac:(lia)). lia.
  - pose proof (Bm (i + 1) j ltac:(lia) ltac:(lia)). lia.
Qed.

(** Pixel (3, 12) of a TIFF of 10 by 20 pixels in 4 regions. *)
Lemma tiles_partition_witness :
  let st := (mkSimpleTiff "scene.tif" 4, growing_world) in
  let st1 := (mkSimpleTiff "scene.tif" 4, tick growing_world) in
  (size st = (Ok (10, 20), st1) /\ 0 <= 20 /\
   1 <= num_regions (fst st1) <= 2 ^ 51 /\
   20 * num_regions (fst st1) <= 2 ^ 51 /\
   0 <= 3 < 10 /\ 0 <= 12 < 20 /\
   (12 < 20 - 1 \/ (num_regions (fst st1) | 20))) /\
  exists rois i r,
    tiles st = (Ok rois, st1) /\ index rois i = Ok r /\ covers r 3 12 /\
    forall j r', index rois j = Ok r' -> covers r' 3 12 -> j = i.
Proof.
  intros st st1.
  assert (E : size st = (Ok (10, 20), st1)) by reflexivity.
  assert (H0 : 0 <= 20) by lia.
  assert (H1 : 1 <= num_regions (fst st1) <= 2 ^ 51) by (cbn; lia).
  assert (H2 : 20 * num_regions (fst st1) <= 2 ^ 51) by (cbn; lia).
  assert (H3 : 0 <= 3 < 10) by lia.
  assert (H4 : 0 <= 12 < 20) by lia.
  assert (H5 : 12 < 20 - 1 \/ (num_regions (fst st1) | 20)) by (left; lia).
  split; [exact (conj E (conj H0 (conj H1 (conj H2 (conj H3 (conj H4 H5))))))|].
  exact (tiles_partition st st1 10 20 3 12 E H0 H1 H2 H3 H4 H5).
Defined.

(** *** TFRecord handles *)

(** A call on a handle that has not resolved its record yet reads the
    record and answers from what it read. *)
Lemma tfr_unresolved_call self w b wd ht c :
  tfr_size self = None -> tfr_num_bands self = None ->
  get_record_info w (tfr_path self) (clock w) = Ok (b, wd, ht) ->
  do_call c (self, w)
  = (cached_answer (wd, ht) b (tfr_num_regions self) c,
     (mkTFRecordImage (tfr_path self) (tfr_num_regions self)
                      (Some b) (Some (wd, ht)), tick w)).
Proof.
  intros Es Eb G.
  assert (S1 : size (self, w)
               = (Ok (wd, ht),
                  (mkTFRecordImage (tfr_path self) (tfr_num_regions self)
                                   (Some b) (Some (wd, ht)), tick w))).
  { cbn [size TFRecordImage_DeltaImage]. unfold tfr_size_method, mbind.
    cbn [fst]. rewrite Es. unfold tfr_get_bands_size. rewrite G.
    reflexivity. }
  destruct c; unfold do_call, cached_answer.
  - rewrite S1. reflexivity.
  - cbn [get_num_bands TFRecordImage_DeltaImage].
    unfold tfr_get_num_bands, mbind. cbn [fst]. rewrite Eb.
    unfold tfr_get_bands_size. rewrite G. reflexivity.
  - rewrite (tiles_resolved _ _ _ S1). reflexivity.
Qed.

(** X7: a fresh TFRecord handle reads its record exactly once, at the
    first call made on it, whichever of [size()], [get_num_bands()] and
    [tiles()] that is; this and all later calls answer from that one
    read. *)
Theorem tfr_fresh_handle_reads_once path n w b wd ht c calls :
  get_record_info w path (clock w) = Ok (b, wd, ht) ->
  run_calls (c :: calls) (TFRecordImage_init path n, w)
  = (map (cached_answer (wd, ht) b n) (c :: calls),
     (mkTFRecordImage path n (Some b) (Some (wd, ht)), tick w)).
Proof.
  intros G. cbn [run_calls map].
  rewrite (tfr_unresolved_call (TFRecordImage_init path n) w b wd ht c
             eq_refl eq_refl G).
  cbn [TFRecordImage_init tfr_path tfr_num_regions].
  rewrite (tfr_cached_calls
             (mkTFRecordImage path n (Some b) (Some (wd, ht))) (tick w)
             (wd, ht) b calls eq_refl eq_refl).
  reflexivity.
Qed.

(** A record of 3 bands, 10 by 20 pixels, asked for its tiles, its size
    and its tiles again. *)
Lemma tfr_fresh_handle_reads_once_witness :
  get_record_info growing_world "scene.tfrecord" (clock growing_world)
  = Ok (3, 10, 20) /\
  run_calls (CallTiles :: [CallSize; CallTiles])
            (TFRecordImage_init "scene.tfrecord" 2, growing_world)
  = (map (cached_answer (10, 20) 3 2) (CallTiles :: [CallSize; CallTiles]),
     (mkTFRecordImage "scene.tfrecord" 2 (Some 3) (Some (10, 20)),
      tick growing_world)).
Proof.
  assert (G : get_record_info growing_world "scene.tfrecord"
                              (clock growing_world) = Ok (3, 10, 20))
    by reflexivity.
  split; [exact G|].
  exact (tfr_fresh_handle_reads_once "scene.tfrecord" 2 growing_world
           3 10 20 CallTiles [CallSize; CallTiles] G).
Defined.

(** X8: a failed read of the record is not cached.  The call raises what
    the read raised and leaves the handle unresolved, so that the next
    call reads the record again, and answers if that read succeeds. *)
Theorem tfr_failed_read_not_cached self w e c :
  tfr_size self = None -> tfr_num_bands self = None ->
  get_record_info w (tfr_path self) (clock w) = Raise e ->
  do_call c (self, w) = (failed_answer e c, (self, tick w)) /\
  forall b wd ht c',
    get_record_info w (tfr_path self) (S (clock w)) = Ok (b, wd, ht) ->
    do_call c' (self, tick w)
    = (cached_answer (wd, ht) b (tfr_num_regions self) c',
       (mkTFRecordImage (tfr_path self) (tfr_num_regions self)
                        (Some b) (Some (wd, ht)), tick (tick w))).
Proof.
  intros Es Eb G. split.
  - assert (S1 : size (self, w) = (Raise e, (self, tick w))).
    { cbn [size TFRecordImage_DeltaImage]. unfold tfr_size_method, mbind.
      cbn [fst]. rewrite Es. unfold tfr_get_bands_size. rewrite G.
      reflexivity. }
    destruct c; unfold do_call, failed_answer.
    + rewrite S1. reflexivity.
    + cbn [get_num_bands TFRecordImage_DeltaImage].
      unfold tfr_get_num_bands, mbind. cbn [fst]. rewrite Eb.
      unfold tfr_get_bands_size. rewrite G. reflexivity.
    + unfold tiles, mbind. rewrite S1. reflexivity.
  - intros b wd ht c' G'.
    apply (tfr_unresolved_call self (tick w) b wd ht c' Es Eb). exact G'.
Qed.

(** A record that cannot be read at the first access. *)
Lemma tfr_failed_read_not_cached_witness :
  let self := TFRecordImage_init "scene.tfrecord" 2 in
  (tfr_size self = None /\ tfr_num_bands self = None /\
   get_record_info flaky_world (tfr_path self) (clock flaky_world)
   = Raise IOError) /\
  do_call CallSize (self, flaky_world)
  = (failed_answer IOError CallSize, (self, tick flaky_world)) /\
  forall b wd ht c',
    get_record_info flaky_world (tfr_path self) (S (clock flaky_world))
    = Ok (b, wd, ht) ->
    do_call c' (self, tick flaky_world)
    = (cached_answer (wd, ht) b (tfr_num_regions self) c',
       (mkTFRecordImage (tfr_path self) (tfr_num_regions self)
                        (Some b) (Some (wd, ht)), tick (tick flaky_world))).
Proof.
  intros self.
  assert (Es : tfr_size self = None) by reflexivity.
  assert (Eb : tfr_num_bands self = None) by reflexivity.
  assert (G : get_record_info flaky_world (tfr_path self) (clock flaky_world)
              = Raise IOError) by reflexivity.
  split; [exact (conj Es (conj Eb G))|].
  exact (tfr_failed_read_not_cached self flaky_world IOError CallSize Es Eb G).
Defined.

(** *** TIFF handles *)

Lemma tiff_size_eq self w :
  size (self, w)
  = (match reader_load w [tif_path self] (clock w) with
     | Ok info => Ok (snd info)
     | Raise e => Raise e
     end, (self, tick w)).
Proof.
  cbn [size SimpleTiff_DeltaImage].
  unfold tiff_size, mbind, simple_prep, open_reader, ret. cbn [fst].
  destruct (reader_load w [tif_path self] (clock w)); reflexivity.
Qed.

Lemma tiff_get_num_bands_eq self w :
  get_num_bands (self, w)
  = (match reader_load w [tif_path self] (clock w) with
     | Ok info => Ok (fst info)
     | Raise e => Raise e
     end, (self, tick w)).
Proof.
  cbn [get_num_bands SimpleTiff_DeltaImage].
  unfold tiff_get_num_bands, mbind, simple_prep, open_reader, ret. cbn [fst].
  destruct (reader_load w [tif_path self] (clock w)); reflexivity.
Qed.

Lemma tiff_call_state c (self : SimpleTiff) w :
  snd (do_call c (self, w)) = (self, tick w).
Proof.
  destruct c; unfold do_call.
  - rewrite tiff_size_eq. reflexivity.
  - rewrite tiff_get_num_bands_eq. reflexivity.
  - unfold tiles, mbind. rewrite tiff_size_eq.
    destruct (reader_load w [tif_path self] (clock w)) as [info|e];
      [|reflexivity].
    rewrite mapMM_lift. reflexivity.
Qed.

(** X9: a TIFF handle keeps nothing between two calls: each [size()],
    [get_num_bands()] and [tiles()] opens the reader once, whether it
    returns or raises, so a sequence of calls makes as many accesses to
    the file as it has calls, and the handle is left as it was. *)
Theorem tiff_opens_reader_at_each_call calls (self : SimpleTiff) w :
  fst (snd (run_calls calls (self, w))) = self /\
  clock (snd (snd (run_calls calls (self, w))))
  = (clock w + length calls)%nat.
Proof.
  revert w. induction calls as [|c calls IH]; intros w.
  - cbn [run_calls snd fst length]. split; [reflexivity | lia].
  - cbn [run_calls]. pose proof (tiff_call_state c self w) as D.
    destruct (do_call c (self, w)) as [a st']. cbn [snd] in D. subst st'.
    specialize (IH (tick w)).
    destruct (run_calls calls (self, tick w)) as [az st''].
    cbn [snd fst length] in *. destruct IH as [-> ->].
    split; [reflexivity|]. cbn [tick clock]. lia.
Qed.

(** X10: [read()] without a region reads the whole image: it is
    [read(roi)] on the rectangle from (0, 0) to the size of the image. *)
Theorem tiff_read_whole_image (self : SimpleTiff) w W Hh st1 :
  size (self, w) = (Ok (W, Hh), st1) ->
  read None (self, w) = read (Some (mkRectangle 0 0 W Hh)) (self, w).
Proof.
  rewrite tiff_size_eq. cbn [read SimpleTiff_DeltaImage].
  unfold tiff_read, mbind, simple_prep, open_reader. cbn [fst].
  destruct (reader_load w [tif_path self] (clock w)) as [[nb [W' H']]|e];
    [|discriminate].
  cbn [snd fst]. intros E. injection E as -> -> _. reflexivity.
Qed.

Lemma tiff_read_whole_image_witness :
  let self := mkSimpleTiff "scene.tif" 1 in
  size (self, growing_world) = (Ok (10, 20), (self, tick growing_world)) /\
  read None (self, growing_world)
  = read (Some (mkRectangle 0 0 10 20)) (self, growing_world).
Proof.
  intros self.
  assert (E : size (self, growing_world)
              = (Ok (10, 20), (self, tick growing_world))) by reflexivity.
  split; [exact E|].
  exact (tiff_read_whole_image self growing_world 10 20 _ E).
Defined.

(** X11: when the reader cannot load the file, every method of a TIFF
    handle that needs it raises what the reader raised, after that one
    access: nothing is read from a reader that did not load, and the
    memory estimate stops before its arithmetic. *)
Theorem tiff_open_failure (self : SimpleTiff) w e :
  reader_load w [tif_path self] (clock w) = Raise e ->
  (forall c, do_call c (self, w) = (failed_answer e c, (self, tick w))) /\
  (forall roi, read roi (self, w) = (Raise e, (self, tick w))) /\
  (forall roi cs co,
      chunk_image_region roi cs co (self, w) = (Raise e, (self, tick w))) /\
  (forall cs co elem nb,
      estimate_memory_usage cs co elem nb (self, w)
      = (Raise e, (self, tick w))).
Proof.
  intros L.
  assert (S1 : size (self, w) = (Raise e, (self, tick w)))
    by (rewrite tiff_size_eq, L; reflexivity).
  assert (B1 : get_num_bands (self, w) = (Raise e, (self, tick w)))
    by (rewrite tiff_get_num_bands_eq, L; reflexivity).
  split; [|split; [|split]].
  - intros c. destruct c; unfold do_call, failed_answer.
    + rewrite S1. reflexivity.
    + rewrite B1. reflexivity.
    + unfold tiles, mbind. rewrite S1. reflexivity.
  - intros roi. cbn [read SimpleTiff_DeltaImage].
    unfold tiff_read, mbind, simple_prep, open_reader. cbn [fst].
    rewrite L. reflexivity.
  - intros roi cs co. cbn [chunk_image_region SimpleTiff_DeltaImage].
    unfold tiff_chunk_image_region, mbind, simple_prep, open_reader.
    cbn [fst]. rewrite L. reflexivity.
  - intros cs co elem nb. unfold estimate_memory_usage.
    destruct (nb <? 1).
    + unfold mbind at 1. rewrite B1. reflexivity.
    + unfold mbind at 1. unfold ret at 1. unfold mbind at 1. rewrite S1.
      reflexivity.
Qed.

Lemma tiff_open_failure_witness :
  let self := mkSimpleTiff "scene.tif" 1 in
  reader_load flaky_world [tif_path self] (clock flaky_world) = Raise IOError /\
  (forall c, do_call c (self, flaky_world)
             = (failed_answer IOError c, (self, tick flaky_world))) /\
  (forall roi, read roi (self, flaky_world)
               = (Raise IOError, (self, tick flaky_world))) /\
  (forall roi cs co,
      chunk_image_region roi cs co (self, flaky_world)
      = (Raise IOError, (self, tick flaky_world))) /\
  (forall cs co elem nb,
      estimate_memory_usage cs co elem nb (self, flaky_world)
      = (Raise IOError, (self, tick flaky_world))).
Proof.
  intros self.
  assert (L : reader_load flaky_world [tif_path self] (clock flaky_world)
              = Raise IOError) by reflexivity.
  split; [exact L|].
  exact (tiff_open_failure self flaky_world IOError L).
Defined.

End MoreImages.

(** ** Further properties of the memory estimate *)

Section MoreEstimates.
Import PyFloat PyFloatFacts.
Import String.StringSyntax.
Local Open Scope string_scope.

(** X12: on a fresh TFRecord handle the estimate reads the record once,
    also when it has to ask for the band count ([num_bands < 1], the
    default): the band count and the size come from the same read. *)
Theorem tfr_estimate_reads_once path n w b wd ht cs co elem nb :
  get_record_info w path (clock w) = Ok (b, wd, ht) ->
  estimate_memory_usage cs co elem nb (TFRecordImage_init path n, w)
  = (estimate_arith (wd, ht) n cs co elem (if nb <? 1 then b else nb),
     (mkTFRecordImage path n (Some b) (Some (wd, ht)), tick w)).
Proof.
  intros G.
  set (self1 := mkTFRecordImage path n (Some b) (Some (wd, ht))).
  destruct (Z.ltb_spec nb 1) as [Hnb|Hnb].
  - assert (B1 : get_num_bands (TFRecordImage_init path n, w)
                 = (Ok b, (self1, tick w))).
    { cbn [get_num_bands TFRecordImage_DeltaImage].
      unfold tfr_get_num_bands, mbind, TFRecordImage_init.
      cbn [fst tfr_num_bands]. unfold tfr_get_bands_size. cbn [tfr_path].
      rewrite G. reflexivity. }
    rewrite (estimate_unfold_default _ _ (self1, tick w) b (wd, ht) _ _ _ _
               Hnb B1 (tfr_resolved_size self1 (tick w) (wd, ht) b
                         eq_refl eq_refl)).
    reflexivity.
  - assert (S1 : size (TFRecordImage_init path n, w)
                 = (Ok (wd, ht), (self1, tick w))).
    { cbn [size TFRecordImage_DeltaImage].
      unfold tfr_size_method, mbind, TFRecordImage_init.
      cbn [fst tfr_size]. unfold tfr_get_bands_size. cbn [tfr_path].
      rewrite G. reflexivity. }
    rewrite (estimate_unfold _ (self1, tick w) (wd, ht) cs co elem nb S1)
      by lia.
    reflexivity.
Qed.

Lemma tfr_estimate_reads_once_witness :
  get_record_info growing_world "scene.tfrecord" (clock growing_world)
  = Ok (3, 10, 20) /\
  estimate_memory_usage 256 64 32 0
    (TFRecordImage_init "scene.tfrecord" 2, growing_world)
  = (estimate_arith (10, 20) 2 256 64 32 (if 0 <? 1 then 3 else 0),
     (mkTFRecordImage "scene.tfrecord" 2 (Some 3) (Some (10, 20)),
      tick growing_world)).
Proof.
  assert (G : get_record_info growing_world "scene.tfrecord"
                              (clock growing_world) = Ok (3, 10, 20))
    by reflexivity.
  split; [exact G|].
  exact (tfr_estimate_reads_once "scene.tfrecord" 2 growing_world 3 10 20
           256 64 32 0 G).
Defined.

(** X13: on a TIFF handle the estimate with the default [num_bands] opens
    the reader twice: the band count is the one of the first access and
    the size the one of the second, whatever the file held at the first. *)
Theorem tiff_estimate_opens_reader_twice (self : SimpleTiff) w
  cs co elem nb b s0 b1 s1 :
  nb < 1 ->
  reader_load w [tif_path self] (clock w) = Ok (b, s0) ->
  reader_load w [tif_path self] (S (clock w)) = Ok (b1, s1) ->
  estimate_memory_usage cs co elem nb (self, w)
  = (estimate_arith s1 (tif_num_regions self) cs co elem b,
     (self, tick (tick w))).
Proof.
  intros Hnb L0 L1.
  assert (B1 : get_num_bands (self, w) = (Ok b, (self, tick w)))
    by (rewrite tiff_get_num_bands_eq, L0; reflexivity).
  assert (S1 : size (self, tick w) = (Ok s1, (self, tick (tick w)))).
  { rewrite tiff_size_eq. cbn [tick reader_load clock]. rewrite L1.
    reflexivity. }
  rewrite (estimate_unfold_default _ _ _ b s1 cs co elem nb Hnb B1 S1).
  reflexivity.
Qed.

(** A file that is 10 pixels wide at the first access and 11 at the
    second. *)
Lemma tiff_estimate_opens_reader_twice_witness :
  let self := mkSimpleTiff "scene.tif" 1 in
  (0 < 1 /\
   reader_load growing_world [tif_path self] (clock growing_world)
   = Ok (3, (10, 20)) /\
   reader_load growing_world [tif_path self] (S (clock growing_world))
   = Ok (3, (11, 20))) /\
  estimate_memory_usage 256 64 32 0 (self, growing_world)
  = (estimate_arith (11, 20) (tif_num_regions self) 256 64 32 3,
     (self, tick (tick growing_world))).
Proof.
  intros self.
  assert (N : 0 < 1) by lia.
  assert (L0 : reader_load growing_world [tif_path self] (clock growing_world)
               = Ok (3, (10, 20))) by reflexivity.
  assert (L1 : reader_load growing_world [tif_path self]
                           (S (clock growing_world))
               = Ok (3, (11, 20))) by reflexivity.
  split; [exact (conj N (conj L0 L1))|].
  exact (tiff_estimate_opens_reader_twice self growing_world 256 64 32 0
           3 (10, 20) 3 (11, 20) N L0 L1).
Defined.

(** X14: when [num_regions] divides the height and the pixels of a region
    are a whole number [c] of squares of the stride, the estimate is the
    exact number of bytes of [c] chunks, [c * chunk_size^2 * num_bands *
    elem_size], as long as that number is at most [2^53]. *)
Theorem estimate_exact {H} `{DeltaImage H} (st st1 : H * World)
  W Hh h c cs co elem nb :
  size st = (Ok (W, Hh), st1) ->
  1 <= num_regions (fst st1) -> Hh = h * num_regions (fst st1) ->
  0 <= h -> 0 <= W -> 0 <= co < cs ->
  h * W = c * ((cs - co) * (cs - co)) -> 1 <= c ->
  1 <= nb -> 1 <= elem ->
  c * (cs * cs) * nb * elem <= 2 ^ 53 ->
  estimate_memory_usage cs co elem nb st
  = (Ok (Fin (c * (cs * cs) * nb * elem * U)), st1).
Proof.
  intros E HR EH Hh0 HW Hco EP Hc Hnb Hel HP.
  rewrite (estimate_unfold st st1 (W, Hh)) by assumption.
  f_equal. rewrite EH.
  apply estimate_arith_exact; assumption.
Qed.

(** A TIFF of 10 by 20 pixels in one region, chunks of 4 pixels
    overlapping by 2: 50 chunks of 16 pixels of 3 bands of 32 bytes. *)
Lemma estimate_exact_witness :
  let st := (mkSimpleTiff "scene.tif" 1, growing_world) in
  let st1 := (mkSimpleTiff "scene.tif" 1, tick growing_world) in
  (size st = (Ok (10, 20), st1) /\
   1 <= num_regions (fst st1) /\ 20 = 20 * num_regions (fst st1) /\
   0 <= 20 /\ 0 <= 10 /\ 0 <= 2 < 4 /\
   20 * 10 = 50 * ((4 - 2) * (4 - 2)) /\ 1 <= 50 /\ 1 <= 3 /\ 1 <= 32 /\
   50 * (4 * 4) * 3 * 32 <= 2 ^ 53) /\
  estimate_memory_usage 4 2 32 3 st
  = (Ok (Fin (50 * (4 * 4) * 3 * 32 * U)), st1).
Proof.
  intros st st1.
  assert (E : size st = (Ok (10, 20), st1)) by reflexivity.
  assert (H1 : 1 <= num_regions (fst st1)) by (cbn; lia).
  assert (H2 : 20 = 20 * num_regions (fst st1)) by (cbn; lia).
  assert (H3 : 0 <= 20) by lia.
  assert (H4 : 0 <= 10) by lia.
  assert (H5 : 0 <= 2 < 4) by lia.
  assert (H6 : 20 * 10 = 50 * ((4 - 2) * (4 - 2))) by lia.
  assert (H7 : 1 <= 50) by lia.
  assert (H8 : 1 <= 3) by lia.
  assert (H9 : 1 <= 32) by lia.
  assert (H10 : 50 * (4 * 4) * 3 * 32 <= 2 ^ 53) by lia.
  split; [exact (conj E (conj H1 (conj H2 (conj H3 (conj H4 (conj H5
            (conj H6 (conj H7 (conj H8 (conj H9 H10))))))))))|].
  exact (estimate_exact st st1 10 20 20 50 4 2 32 3
           E H1 H2 H3 H4 H5 H6 H7 H8 H9 H10).
Defined.

End MoreEstimates.

(** ** Further properties of the chunk filter *)

Section MoreFilter.
Import PyFloat PyFloatFacts.

(** The worker ranges, by their boundaries: those of [horizontal_split] on
    [num_chunks] rows. *)
Lemma thread_splits_boundaries K T :
  0 <= K -> 1 <= T <= 2 ^ 51 -> K * T <= 2 ^ 51 ->
  exists b : Z -> Z,
    thread_splits K T = Ok (map (fun i => (b i, b (i + 1))) (range 0 T)) /\
    b 0 = 0 /\
    (forall i j, 0 <= i <= j -> j <= T -> b i <= b j) /\
    K - 1 <= b T <= K /\
    ((T | K) -> b T = K).
Proof.
  intros HK HT Hb.
  assert (P51 : 2 ^ 51 < 2 ^ 53) by reflexivity.
  assert (HK51 : K <= 2 ^ 51).
  { assert (K * 1 <= K * T) by (apply Z.mul_le_mono_nonneg_l; lia). lia. }
  destruct (band_core K T HK HT Hb) as (kb & b & Eb & Hfl & B0 & Bm & Bq & Bx).
  exists b. split; [|split; [exact B0|split; [exact Bm|split]]].
  - apply (thread_splits_of_core K T kb b); [lia | lia | exact Eb | exact Hfl].
  - pose proof (Bq T ltac:(lia)) as Q. rewrite whole_quotient in Q by lia.
    exact Q.
  - intros D. rewrite (Bx T) by (try lia; left; exact D).
    apply whole_quotient. lia.
Qed.

Lemma filter_all {A} (p : A -> bool) l :
  (forall a, In a l -> p a = true) -> filter p l = l.
Proof.
  induction l as [|a l IH]; intros Hp; [reflexivity|]. cbn [filter].
  rewrite Hp by (left; reflexivity). f_equal.
  apply IH. intros; apply Hp; right; assumption.
Qed.

Lemma map_nth_seq {A} (d : A) l :
  map (fun i => nth i l d) (seq 0 (length l)) = l.
Proof.
  pose proof (filter_by_index_nat (fun _ => true) d l 0) as F.
  rewrite !filter_all in F by reflexivity.
  rewrite <- F at 2. apply map_ext. intros i. rewrite Nat.sub_0_r.
  reflexivity.
Qed.

Lemma map_seq_shift {A} (f : nat -> A) s n :
  map f (seq s n) = map (fun k => f (s + k)%nat) (seq 0 n).
Proof.
  revert s f. induction n as [|n IH]; intros s f; [reflexivity|].
  cbn [seq map]. rewrite Nat.add_0_r. f_equal.
  rewrite (IH (S s) f), (IH 1%nat (fun k => f (s + k)%nat)).
  apply map_ext. intros k. f_equal. lia.
Qed.

Lemma range_split a m b : a <= m <= b -> range a b = range a m ++ range m b.
Proof.
  intros Hm. unfold range.
  replace (Z.to_nat (b - a)) with (Z.to_nat (m - a) + Z.to_nat (b - m))%nat
    by lia.
  rewrite seq_app, map_app. f_equal. cbn [Nat.add].
  rewrite map_seq_shift. apply map_ext. intros k. lia.
Qed.

(** Selecting by index with a test that holds past [L]: the chunks before
    [L] that pass the test, and all those from [L] on. *)
Lemma filter_prefix {A} (p : A -> bool) (d : A) (l : list A) L :
  0 <= L <= len l ->
  map (fun i => nth (Z.to_nat i) l d)
      (filter (fun i => if i <? L then p (nth (Z.to_nat i) l d) else true)
              (range 0 (len l)))
  = filter p (firstn (Z.to_nat L) l) ++ skipn (Z.to_nat L) l.
Proof.
  intros HL. unfold len in HL.
  rewrite (range_split 0 L (len l)) by (unfold len; lia).
  rewrite filter_app, map_app. f_equal.
  - assert (Hl1 : len (firstn (Z.to_nat L) l) = L).
    { unfold len. rewrite length_firstn. lia. }
    rewrite <- (filter_by_index p d (firstn (Z.to_nat L) l)). rewrite Hl1.
    assert (Hn : forall i, In i (range 0 L) ->
              nth (Z.to_nat i) (firstn (Z.to_nat L) l) d
              = nth (Z.to_nat i) l d).
    { intros i Hi. apply in_range in Hi.
      rewrite <- (firstn_skipn (Z.to_nat L) l) at 2.
      rewrite app_nth1 by (rewrite length_firstn; lia). reflexivity. }
    rewrite (filter_ext_in
               (fun i => if i <? L then p (nth (Z.to_nat i) l d) else true)
               (fun i => p (nth (Z.to_nat i) (firstn (Z.to_nat L) l) d))).
    + apply map_ext_in. intros i Hi. apply filter_In in Hi.
      symmetry. apply Hn. apply Hi.
    + intros i Hi. rewrite (Hn i Hi). apply in_range in Hi.
      destruct (Z.ltb_spec i L); [reflexivity | lia].
  - rewrite filter_all.
    2:{ intros i Hi. apply in_range in Hi.
        destruct (Z.ltb_spec i L); [lia | reflexivity]. }
    transitivity (map (fun i => nth i (skipn (Z.to_nat L) l) d)
                      (seq 0 (length (skipn (Z.to_nat L) l))));
      [|apply map_nth_seq].
    unfold range, len. rewrite map_map, length_skipn.
    replace (Z.to_nat (Z.of_nat (length l) - L))
      with (length l - Z.to_nat L)%nat by lia.
    apply map_ext. intros k.
    rewrite <- (firstn_skipn (Z.to_nat L) l) at 1.
    rewrite app_nth2 by (rewrite length_firstn; lia).
    f_equal. rewrite length_firstn. lia.
Qed.

(** X15: whatever the thread count, the filter checks every chunk or
    every chunk but the last one.  With [L] the stop index of the last
    worker, [L] is [num_chunks] or [num_chunks - 1], and is [num_chunks]
    when the thread count divides it; the filter returns, in their order,
    the chunks before [L] whose first band has no zero pixel, followed by
    the chunks from [L] on, unchecked; the figure it prints is their
    number. *)
Theorem parallel_filter_chunks_any_thread_count data T K B w h :
  arr_class data = ShapeMethod -> arr_dims data = (K, B, w, h) ->
  wf_array data -> 1 <= B -> 1 <= T <= 2 ^ 51 -> K * T <= 2 ^ 51 ->
  exists L,
    0 <= L /\ K - 1 <= L <= K /\ ((T | K) -> L = K) /\
    fmap_last_stop K T = Ok L /\
    let kept := filter chunk_valid (firstn (Z.to_nat L) (arr_chunks data))
                ++ skipn (Z.to_nat L) (arr_chunks data) in
    parallel_filter_chunks data T
    = Ok (mkArray ShapeMethod (len kept, B, w, h) kept, len kept).
Proof.
  intros Hc Hd Hwf HB HT Hb.
  assert (HK : len (arr_chunks data) = K).
  { unfold wf_array in Hwf. rewrite Hd in Hwf. apply Hwf. }
  assert (HK0 : 0 <= K) by (unfold len in HK; lia).
  destruct (thread_splits_boundaries K T HK0 HT Hb)
    as (g & Hsp & G0 & Gmono & GT & GD).
  set (sp := map (fun i => (g i, g (i + 1))) (range 0 T)) in *.
  assert (HL0 : 0 <= g T) by (rewrite <- G0; apply Gmono; lia).
  exists (g T). split; [exact HL0|]. split; [exact GT|]. split; [exact GD|].
  split.
  { unfold fmap_last_stop. rewrite Hsp. cbn [bind]. unfold sp.
    rewrite last_stop_map by lia. reflexivity. }
  intros kept.
  set (chunks := arr_chunks data) in *.
  set (invalid := fun i => negb (chunk_valid (nth (Z.to_nat i) chunks []))).
  unfold parallel_filter_chunks.
  rewrite Hc, Hd. cbn [call_shape bind]. rewrite Hsp. cbn [bind].
  destruct (Z.ltb_spec T 1); [lia|]. cbn [bind].
  rewrite (mapM_ok _ (fun '(s, e) => filter invalid (range s e))).
  2:{ intros [s e] Hin. unfold sp in Hin. apply in_map_iff in Hin.
      destruct Hin as (i & Ei & Hi). injection Ei as <- <-.
      apply in_range in Hi.
      apply (check_chunks_ok data K B w h); try assumption.
      - rewrite <- G0. apply Gmono; lia.
      - assert (g (i + 1) <= g T) by (apply Gmono; lia). lia. }
  cbn [bind].
  set (writes := concat (map (fun '(s, e) => filter invalid (range s e)) sp)).
  assert (Hw : forall x, In x writes ->
             0 <= x < g T /\ invalid x = true).
  { intros x Hx. unfold writes in Hx.
    apply in_concat in Hx. destruct Hx as (l & Hl & Hx).
    apply in_map_iff in Hl. destruct Hl as ([s e] & <- & Hp).
    apply filter_In in Hx. destruct Hx as [Hr Hinv].
    unfold sp in Hp. apply in_map_iff in Hp.
    destruct Hp as (j & Ej & Hj). injection Ej as <- <-.
    apply in_range in Hj. apply in_range in Hr.
    assert (0 <= g j) by (rewrite <- G0; apply Gmono; lia).
    assert (g (j + 1) <= g T) by (apply Gmono; lia).
    split; [lia | exact Hinv]. }
  assert (Hflag : forall i, 0 <= i < K ->
            nth (Z.to_nat i) (apply_writes (repeat true (Z.to_nat K)) writes) false
            = if i <? g T then chunk_valid (nth (Z.to_nat i) chunks [])
              else true).
  { intros i Hi. rewrite apply_writes_nth, nth_repeat_true by lia.
    cbn [andb].
    destruct (Z.ltb_spec i (g T)) as [Li|Li].
    - destruct (chunk_valid (nth (Z.to_nat i) chunks [])) eqn:V.
      + apply negb_true_iff. apply not_true_is_false. intros Ex.
        apply existsb_exists in Ex. destruct Ex as (x & Hx & Ex).
        apply Nat.eqb_eq in Ex. destruct (Hw x Hx) as [Bx Hinv].
        assert (x = i) by lia. subst x.
        unfold invalid in Hinv. rewrite V in Hinv. discriminate.
      + apply negb_false_iff. apply existsb_exists. exists i.
        split; [|apply Nat.eqb_refl].
        destruct (covered g (Z.to_nat T) i) as (j & Hj & Bj).
        { rewrite Z2Nat.id by lia. lia. }
        rewrite Z2Nat.id in Hj by lia.
        unfold writes. apply in_concat.
        exists (filter invalid (range (g j) (g (j + 1)))). split.
        * apply in_map_iff. exists (g j, g (j + 1)). split; [reflexivity|].
          unfold sp. apply in_map_iff. exists j. split; [reflexivity|].
          apply in_range. lia.
        * apply filter_In. split; [apply in_range; lia|].
          unfold invalid. rewrite V. reflexivity.
    - apply negb_true_iff. apply not_true_is_false. intros Ex.
      apply existsb_exists in Ex. destruct Ex as (x & Hx & Ex).
      apply Nat.eqb_eq in Ex. destruct (Hw x Hx) as [Bx _]. lia. }
  assert (Hids : valid_indices_of K (apply_writes (repeat true (Z.to_nat K)) writes)
                 = filter (fun i => if i <? g T
                                    then chunk_valid (nth (Z.to_nat i) chunks [])
                                    else true)
                          (range 0 (len chunks))).
  { unfold valid_indices_of. rewrite HK. apply filter_ext_in.
    intros i Hi. apply in_range in Hi. apply Hflag. lia. }
  rewrite Hids.
  set (ids := filter (fun i => if i <? g T
                               then chunk_valid (nth (Z.to_nat i) chunks [])
                               else true)
                     (range 0 (len chunks))).
  assert (Hkept : map (fun i => nth (Z.to_nat i) chunks []) ids = kept)
    by (apply filter_prefix; lia).
  unfold take_chunks. fold chunks.
  rewrite (mapM_ok _ (fun i => nth (Z.to_nat i) chunks [])).
  2:{ intros i Hi. unfold ids in Hi. apply filter_In in Hi.
      destruct Hi as [Hi _]. apply in_range in Hi.
      apply index_nth. lia. }
  cbn [bind]. rewrite Hd, Hc, Hkept.
  assert (Hlen : len ids = len kept).
  { rewrite <- Hkept. unfold len. rewrite length_map. reflexivity. }
  rewrite Hlen. reflexivity.
Qed.

(** A batch of five chunks, two of them no-data, and four workers. *)
Lemma parallel_filter_chunks_any_thread_count_witness :
  let data := pixel_batch [5; 0; 7; 0; 9] in
  (arr_class data = ShapeMethod /\ arr_dims data = (5, 1, 1, 1) /\
   wf_array data /\ 1 <= 1 /\ 1 <= 4 <= 2 ^ 51 /\ 5 * 4 <= 2 ^ 51) /\
  exists L,
    0 <= L /\ 5 - 1 <= L <= 5 /\ ((4 | 5) -> L = 5) /\
    fmap_last_stop 5 4 = Ok L /\
    let kept := filter chunk_valid (firstn (Z.to_nat L) (arr_chunks data))
                ++ skipn (Z.to_nat L) (arr_chunks data) in
    parallel_filter_chunks data 4
    = Ok (mkArray ShapeMethod (len kept, 1, 1, 1) kept, len kept).
Proof.
  intros data.
  assert (Hc : arr_class data = ShapeMethod) by reflexivity.
  assert (Hd : arr_dims data = (5, 1, 1, 1)) by reflexivity.
  assert (Hwf : wf_array data).
  { unfold wf_array, wf_chunk. cbn. split; [reflexivity|].
    repeat constructor. }
  assert (HB : 1 <= 1) by lia.
  assert (HT : 1 <= 4 <= 2 ^ 51) by lia.
  assert (Hb : 5 * 4 <= 2 ^ 51) by lia.
  split; [exact (conj Hc (conj Hd (conj Hwf (conj HB (conj HT Hb)))))|].
  exact (parallel_filter_chunks_any_thread_count data 4 5 1 1 1
           Hc Hd Hwf HB HT Hb).
Defined.

Lemma of_int_opp z k :
  0 < z -> of_int z = Ok (Fin k) -> of_int (- z) = Ok (Fin (- k)).
Proof.
  intros Hz. unfold of_int, round. rewrite Z.abs_opp, Z.sgn_opp.
  rewrite Z.sgn_pos by lia. rewrite Z.mul_opp_l, !Z.mul_1_l.
  destruct (huge <=? round_units (Z.abs z * U) 1); [discriminate|].
  intros E. apply Ok_inj in E. injection E as <-. reflexivity.
Qed.

(** X16: a thread count below 1 never filters.  On a [numpy.ndarray] the
    call raises TypeError at [data.shape()], as for every thread count.
    On a batch whose class offers [shape()] as a method the count is
    rejected after the worker ranges are computed: 0 by the division
    [float(num_chunks) / float(num_threads)] (ZeroDivisionError), a
    negative count by the thread pool (ValueError). *)
Theorem parallel_filter_chunks_no_thread data T K B w h :
  arr_dims data = (K, B, w, h) ->
  Z.abs K <= 2 ^ 1023 -> - 2 ^ 1023 <= T <= 0 ->
  parallel_filter_chunks data T
  = Raise match arr_class data with
          | NumpyArray => TypeError
          | ShapeMethod => if T =? 0 then ZeroDivisionError else ValueError
          end.
Proof.
  intros Hd HK HT. unfold parallel_filter_chunks.
  destruct (arr_class data); [reflexivity|].
  rewrite Hd. cbn [call_shape bind]. unfold thread_splits.
  destruct (of_int_ok K HK) as (kk & ->). cbn [bind].
  destruct (Z.eqb_spec T 0) as [->|Hne].
  - rewrite of_int_0. cbn [bind]. rewrite div_by_zero. reflexivity.
  - assert (HT' : Z.abs (- T) <= 2 ^ 1023) by lia.
    destruct (of_int_ok (- T) HT') as (kt & Et).
    pose proof (of_int_pos (- T) kt ltac:(lia) Et) as Hkt.
    pose proof U_pos as HU.
    pose proof (of_int_opp (- T) kt ltac:(lia) Et) as Et'.
    rewrite Z.opp_involutive in Et'. rewrite Et'. cbn [bind].
    assert (D : exists q, div (Fin kk) (Fin (- kt)) = Ok q).
    { unfold div. destruct (- kt) eqn:E; [lia | |]; eexists; reflexivity. }
    destruct D as (q & ->). cbn [bind].
    rewrite range_nil by lia. cbn [mapM bind].
    destruct (Z.ltb_spec T 1); [reflexivity | lia].
Qed.

(** Three chunks and no thread. *)
Lemma parallel_filter_chunks_no_thread_witness :
  let data := pixel_batch [5; 0; 7] in
  (arr_dims data = (3, 1, 1, 1) /\
   Z.abs 3 <= 2 ^ 1023 /\ - 2 ^ 1023 <= 0 <= 0) /\
  parallel_filter_chunks data 0
  = Raise match arr_class data with
          | NumpyArray => TypeError
          | ShapeMethod => if 0 =? 0 then ZeroDivisionError else ValueError
          end.
Proof.
  intros data.
  assert (Hd : arr_dims data = (3, 1, 1, 1)) by reflexivity.
  assert (P : 0 < 2 ^ 1023) by (apply Z.pow_pos_nonneg; lia).
  assert (HK : Z.abs 3 <= 2 ^ 1023).
  { assert (2 ^ 2 <= 2 ^ 1023) by (apply Z.pow_le_mono_r; lia).
    change (Z.abs 3) with 3. change (2 ^ 2) with 4 in *. lia. }
  assert (HT : - 2 ^ 1023 <= 0 <= 0) by lia.
  split; [exact (conj Hd (conj HK HT))|].
  exact (parallel_filter_chunks_no_thread data 0 3 1 1 1 Hd HK HT).
Defined.

End MoreFilter.

(** ** Handles without regions, and the lemmas above on examples *)

Section MoreEdges.
Import PyFloat PyFloatFacts.
Import String.StringSyntax.
Local Open Scope string_scope.

(** X17: nothing checks [num_regions].  On a handle of no region
    [tiles()] still asks for the size and then yields nothing, and the
    memory estimate divides the height by zero. *)
Theorem no_region_handle {H} `{DeltaImage H} (st st1 : H * World) W Hh :
  size st = (Ok (W, Hh), st1) ->
  (num_regions (fst st1) <= 0 -> tiles st = (Ok [], st1)) /\
  (num_regions (fst st1) = 0 ->
   forall cs co elem nb,
     1 <= nb ->
     estimate_memory_usage cs co elem nb st = (Raise ZeroDivisionError, st1)).
Proof.
  intros E. split.
  - intros Hn. rewrite (tiles_resolved st st1 (W, Hh) E).
    rewrite range_nil by lia. reflexivity.
  - intros Hn cs co elem nb Hnb.
    rewrite (estimate_unfold st st1 (W, Hh)) by assumption.
    rewrite Hn. reflexivity.
Qed.

Lemma no_region_handle_witness :
  let st := (mkSimpleTiff "scene.tif" 0, growing_world) in
  let st1 := (mkSimpleTiff "scene.tif" 0, tick growing_world) in
  size st = (Ok (10, 20), st1) /\
  (num_regions (fst st1) <= 0 -> tiles st = (Ok [], st1)) /\
  (num_regions (fst st1) = 0 ->
   forall cs co elem nb,
     1 <= nb ->
     estimate_memory_usage cs co elem nb st = (Raise ZeroDivisionError, st1)).
Proof.
  intros st st1.
  assert (E : size st = (Ok (10, 20), st1)) by reflexivity.
  split; [exact E|].
  exact (no_region_handle st st1 10 20 E).
Defined.

(** Bands 0 and 1 of a 10 by 10 image cut in 2. *)
Lemma horizontal_split_contiguous_witness :
  (0 <= 0 < 2 ^ 53 /\
   horizontal_split (10, 10) 0 2 = Ok (mkRectangle 0 0 10 5) /\
   horizontal_split (10, 10) (0 + 1) 2 = Ok (mkRectangle 0 5 10 10)) /\
  max_y (mkRectangle 0 0 10 5) = min_y (mkRectangle 0 5 10 10).
Proof.
  assert (R : 0 <= 0 < 2 ^ 53) by lia.
  destruct (band_boundaries 10 2 ltac:(lia) ltac:(lia) ltac:(lia))
    as (b & Hs & B0 & _ & _ & Bx).
  assert (D : (2 | 10) \/ ~ (2 | 10 * 1)) by (left; exists 5; reflexivity).
  assert (D' : (2 | 10) \/ ~ (2 | 10 * 2)) by (left; exists 5; reflexivity).
  assert (A : horizontal_split (10, 10) 0 2 = Ok (mkRectangle 0 0 10 5)).
  { rewrite (Hs 10 0 ltac:(lia)). change (0 + 1) with 1.
    rewrite B0, (Bx 1 ltac:(lia) D). reflexivity. }
  assert (B : horizontal_split (10, 10) (0 + 1) 2
              = Ok (mkRectangle 0 5 10 10)).
  { rewrite (Hs 10 (0 + 1) ltac:(lia)). change (0 + 1 + 1) with 2.
    change (0 + 1) with 1.
    rewrite (Bx 1 ltac:(lia) D), (Bx 2 ltac:(lia) D'). reflexivity. }
  split; [exact (conj R (conj A B))|].
  exact (horizontal_split_contiguous (10, 10) 2 0 _ _ R A B).
Defined.

(** Two workers that flag chunks 1 and 3, in either order. *)
Lemma apply_writes_perm_witness :
  Permutation [1; 3] [3; 1] /\
  apply_writes [true; true; true; true] [1; 3]
  = apply_writes [true; true; true; true] [3; 1].
Proof.
  assert (P : Permutation [1; 3] [3; 1]) by apply perm_swap.
  split; [exact P|].
  exact (apply_writes_perm [true; true; true; true] [1; 3] [3; 1] P).
Defined.

(** Six chunks for three workers. *)
Lemma thread_splits_divisible_witness :
  (1 <= 3 <= 2 ^ 53 /\ 0 <= 2 /\ 6 = 2 * 3 /\ 6 <= 2 ^ 53) /\
  thread_splits 6 3 = Ok (map (fun i => (i * 2, (i + 1) * 2)) (range 0 3)) /\
  last_stop (map (fun i => (i * 2, (i + 1) * 2)) (range 0 3)) = 6.
Proof.
  assert (H1 : 1 <= 3 <= 2 ^ 53) by lia.
  assert (H2 : 0 <= 2) by lia.
  assert (H3 : 6 = 2 * 3) by lia.
  assert (H4 : 6 <= 2 ^ 53) by lia.
  split; [exact (conj H1 (conj H2 (conj H3 H4)))|].
  exact (thread_splits_divisible 6 3 2 H1 H2 H3 H4).
Defined.

(** A numpy batch of one chunk. *)
Lemma parallel_filter_chunks_numpy_witness :
  let data := mkArray NumpyArray (1, 1, 1, 1) [[[[5]]]] in
  arr_class data = NumpyArray /\
  parallel_filter_chunks data 4 = Raise TypeError.
Proof.
  intros data.
  assert (Hc : arr_class data = NumpyArray) by reflexivity.
  split; [exact Hc|].
  exact (parallel_filter_chunks_numpy data 4 Hc).
Defined.

End MoreEdges.
